(** * Remotion Lambda: streaming invocation, chunk orchestration, worker handler

    A shallow embedding of

    - [packages/lambda/src/shared/call-lambda.ts]            (module [CallLambda]),
    - [packages/lambda/src/functions/helpers/stream-renderer.ts] (module [StreamRenderer]),
    - [packages/lambda/src/functions/renderer.ts]            (module [Renderer]),
    - [packages/core/src/use-media-buffering.ts]             (module [UseMediaBuffering]).

    Promises are modelled by their settlement ([completion]); mutable
    objects the code shares (the [files] array, the progress helper, the
    file system, the promise being resolved) are fields of an explicit
    state that is threaded through the handlers. *)

From Stdlib Require Import ZArith String Ascii List Bool Lia DecimalString.
From stdpp Require Import base option list strings gmap.

Open Scope string_scope.
Open Scope Z_scope.

(** ** JavaScript values and primitives used by the sources *)

Module JS.

(** A [Uint8Array]. *)
Definition bytes := list Byte.byte.

(** An [Error] object.  [stack] is produced by the engine; only its first
    line is determined by the program, so it is a field of its own. *)
Record Error := mkError { name : string; message : string; stack : string }.

(** [new Error(msg)]. *)
Definition new_Error (msg : string) : Error :=
  {| name := "Error"; message := msg; stack := "Error: " +:+ msg |}.

(** How a statement, a call or an awaited promise ends. *)
Inductive completion (A : Type) : Type :=
| Normal (a : A)
| Throw (e : Error).
Arguments Normal {A} a.
Arguments Throw {A} e.

Definition is_throw {A} (c : completion A) : bool :=
  match c with Throw _ => true | Normal _ => false end.

(** [String.prototype.includes]. *)
Fixpoint includes (hay needle : string) : bool :=
  String.prefix needle hay ||
  match hay with
  | EmptyString => false
  | String _ rest => includes rest needle
  end.

(** [String(n)] and a number inside a template literal, for integers. *)
Definition String_of_number (z : Z) : string :=
  NilZero.string_of_int (Z.to_int z).

(** The character [U+0022]. *)
Definition dquote : string := String (Ascii.ascii_of_nat 34) EmptyString.

Fixpoint repeat_string (n : nat) (s : string) : string :=
  match n with O => "" | S k => s +:+ repeat_string k s end.

(** [s.padStart(n, '0')]. *)
Definition padStart0 (s : string) (n : nat) : string :=
  repeat_string (n - String.length s) "0" +:+ s.

(** Truthiness of a possibly missing string ([undefined] and [''] are
    falsy). *)
Definition truthy_string (o : option string) : bool :=
  match o with
  | None => false
  | Some s => negb (String.eqb s "")
  end.

End JS.

Import JS.

(** ** call-lambda.ts *)

Module CallLambda.

Definition INVALID_JSON_MESSAGE : string := "Cannot parse Lambda response as JSON".

Definition STREAM_STALL_TIMEOUT : Z := 30000 * 2.

Definition LAMBDA_STREAM_STALL : string :=
  "AWS did not invoke Lambda in " +:+ String_of_number STREAM_STALL_TIMEOUT +:+ "ms".

(** *** The stall guard, [invokeStreamOrTimeout] *)

(** When, counted in milliseconds from the call, and how the promise of
    [client.send(new InvokeWithResponseStreamCommand(..))] settles. *)
Inductive Settle (A : Type) : Type :=
| ResolvesAt (t : Z) (a : A)
| RejectsAt (t : Z) (e : Error)
| NeverSettles.
Arguments ResolvesAt {A} t a.
Arguments RejectsAt {A} t e.
Arguments NeverSettles {A}.

(** The timer created by [setTimeout]. *)
Inductive TimerState := TimerPending | TimerCleared | TimerFired.

(** The two values the variable [cleanup] takes. *)
Inductive Cleanup := cleanup_noop | cleanup_clearTimeout.

Definition run_cleanup (c : Cleanup) (t : TimerState) : TimerState :=
  match c, t with
  | cleanup_clearTimeout, TimerPending => TimerCleared
  | _, _ => t
  end.

Inductive RaceWinner (A : Type) : Type :=
| SendWins (c : completion A)
| TimeoutWins.
Arguments SendWins {A} c.
Arguments TimeoutWins {A}.

(** [Promise.race([resProm, timeout])]: the promise that settles first
    decides.  [tie] says whether the timer callback runs first when both
    are due in the same millisecond; the program does not determine it. *)
Definition Promise_race {A} (tie : bool) (send : Settle A) (deadline : Z)
  : RaceWinner A :=
  match send with
  | NeverSettles => TimeoutWins
  | ResolvesAt t a =>
      if (t <? deadline) || ((t =? deadline) && negb tie)
      then SendWins (Normal a) else TimeoutWins
  | RejectsAt t e =>
      if (t <? deadline) || ((t =? deadline) && negb tie)
      then SendWins (Throw e) else TimeoutWins
  end.

(** [invokeStreamOrTimeout].  The executor of [timeout] runs at once, so
    when the race is awaited the timer is pending and [cleanup] is
    [clearTimeout(int)].  A rejected race makes the [await] throw, and
    [cleanup()] on the next line is not reached. *)
Definition invokeStreamOrTimeout {A} (tie : bool) (send : Settle A)
  : completion A * TimerState :=
  let cleanup0 := cleanup_noop in
  let timer := TimerPending in
  let cleanup := cleanup_clearTimeout in
  match Promise_race tie send STREAM_STALL_TIMEOUT with
  | SendWins (Normal res) => (Normal res, run_cleanup cleanup timer)
  | SendWins (Throw e) => (Throw e, timer)
  | TimeoutWins => (Throw (new_Error LAMBDA_STREAM_STALL), TimerFired)
  end.

(** The send promise is still pending when the deadline is reached. *)
Definition pending_at_deadline {A} (send : Settle A) : Prop :=
  match send with
  | NeverSettles => True
  | ResolvesAt t _ | RejectsAt t _ => STREAM_STALL_TIMEOUT < t
  end.

(** *** Decoding one frame and the streaming loop *)

Inductive Format := json | binary.

Inductive Status := success | error.

(** What [makeStreamer] hands to its callback. *)
Record Frame := mkFrame { status : Status; messageTypeId : Z; data : bytes }.

(** The fields of the options that the modelled code reads. *)
Record Options (Req : Type) := mkOptions {
  functionName : string;
  payload_ : Req;
  region : string;
}.
Arguments functionName {Req} _.
Arguments payload_ {Req} _.
Arguments region {Req} _.

(** What lies outside these sources: the JSON parser, the text decoder
    and the two tables of [functions/streaming/streaming.ts]. *)
Class Externals := {
  JSON : Type;
  JSON_parse : string -> option JSON;
  TextDecoder_decode : bytes -> string;
  messageTypeIdToMessageType : Z -> string;
  (** a JavaScript object used as a table: a missing key reads [undefined] *)
  formatMap : string -> option Format;
}.

Section Streaming.

Context `{X : Externals}.

Inductive Payload :=
| PayloadJson (v : JSON)
| PayloadBytes (b : bytes).

Record Message := mkMessage { type : string; payload : Payload }.

Record StreamingMessage :=
  mkStreamingMessage { successType : Status; message_ : Message }.

Definition parseJsonOrThrowSource (data : bytes) (type : string)
  : completion JSON :=
  let asString := TextDecoder_decode data in
  match JSON_parse asString with
  | Some v => Normal v
  | None => Throw (new_Error ("Invalid JSON (" +:+ type +:+ "): " +:+ asString))
  end.

Definition format_is_json (messageType : string) : bool :=
  match formatMap messageType with
  | Some json => true
  | _ => false
  end.

(** Lines 188-194: the inner payload of a frame. *)
Definition innerPayload (messageTypeId : Z) (data : bytes)
  : completion Payload :=
  let messageType := messageTypeIdToMessageType messageTypeId in
  if format_is_json messageType
  then match parseJsonOrThrowSource data messageType with
       | Normal v => Normal (PayloadJson v)
       | Throw e => Throw e
       end
  else Normal (PayloadBytes data).

(** The caller state [S] is whatever [receivedStreamingPayload] closes
    over; a handler may change it and throw. *)
Definition OnMessage (S : Type) : Type :=
  StreamingMessage -> S -> completion unit * S.

(** The callback given to [makeStreamer]. *)
Definition streamerCallback {S} (receivedStreamingPayload : OnMessage S)
  (f : Frame) (s : S) : completion unit * S :=
  match innerPayload (messageTypeId f) (data f) with
  | Throw e => (Throw e, s)
  | Normal p =>
      let message :=
        {| successType := status f;
           message_ := {| type := messageTypeIdToMessageType (messageTypeId f);
                          payload := p |} |} in
      receivedStreamingPayload message s
  end.

(** [onData(chunk)]: the frames completed by this chunk go to the callback
    in order; an exception of the callback leaves [onData]. *)
Fixpoint onData {S} (h : OnMessage S) (frames : list Frame) (s : S)
  : completion unit * S :=
  match frames with
  | [] => (Normal tt, s)
  | f :: rest =>
      match streamerCallback h f s with
      | (Throw e, s') => (Throw e, s')
      | (Normal _, s') => onData h rest s'
      end
  end.

Record InvokeCompleteInfo :=
  mkInvokeComplete { ErrorCode : option string; ErrorDetails : string }.

(** One event of the response stream.  [PayloadChunk] holds the frames the
    streamer completes while it consumes the chunk's bytes (the framing
    itself is [@remotion/streaming]). *)
Record Event := mkEvent {
  PayloadChunk : option (list Frame);
  InvokeComplete : option InvokeCompleteInfo;
}.

Record Response := mkResponse {
  requestId : string;
  EventStream : list Event;
  (** the iteration of the stream may itself fail after these events *)
  streamError : option Error;
}.

Definition logsUrl (region functionName requestId : string) : string :=
  "https://" +:+ region +:+ ".console.aws.amazon.com/cloudwatch/home?region="
  +:+ region
  +:+ "#logsV2:logs-insights$3FqueryDetail$3D~(end~0~start~-3600~timeType~'RELATIVE~unit~'seconds~editorString~'fields*20*40timestamp*2c*20*40requestId*2c*20*40message*0a*7c*20filter*20*40requestId*20like*20*"
  +:+ requestId
  +:+ "*22*0a*7c*20sort*20*40timestamp*20asc~source~(~'*2faws*2flambda*2f"
  +:+ functionName +:+ "))".

Definition invokeCompleteError (region functionName requestId : string)
  (ic : InvokeCompleteInfo) : option Error :=
  if truthy_string (ErrorCode ic) then
    let logs := logsUrl region functionName requestId in
    let code := default "" (ErrorCode ic) in
    if String.eqb code "Unhandled" then
      Some (new_Error ("Lambda function " +:+ functionName
                       +:+ " failed with an unhandled error: "
                       +:+ ErrorDetails ic +:+ " See " +:+ logs
                       +:+ " to see the logs of this invocation."))
    else
      Some (new_Error ("Lambda function " +:+ functionName
                       +:+ " failed with error code " +:+ code +:+ ": "
                       +:+ ErrorDetails ic +:+ ". See " +:+ logs
                       +:+ " to see the logs of this invocation."))
  else None.

(** The body of [for await (const event of events)]. *)
Fixpoint consumeEvents {S} (h : OnMessage S)
  (region functionName requestId : string) (events : list Event) (s : S)
  : completion unit * S :=
  match events with
  | [] => (Normal tt, s)
  | ev :: rest =>
      let afterData :=
        match PayloadChunk ev with
        | Some frames => onData h frames s
        | None => (Normal tt, s)
        end in
      match afterData with
      | (Throw e, s') => (Throw e, s')
      | (Normal _, s') =>
          match InvokeComplete ev ≫= invokeCompleteError region functionName requestId with
          | Some e => (Throw e, s')
          | None => consumeEvents h region functionName requestId rest s'
          end
      end
  end.

Definition callLambdaWithStreamingWithoutRetry {S Req} (tie : bool)
  (options : Options Req) (h : OnMessage S) (send : Settle Response) (s : S)
  : completion unit * S :=
  match fst (invokeStreamOrTimeout tie send) with
  | Throw e => (Throw e, s)
  | Normal res =>
      match consumeEvents h (region options) (functionName options)
                          (requestId res) (EventStream res) s with
      | (Throw e, s') => (Throw e, s')
      | (Normal _, s') =>
          match streamError res with
          | Some e => (Throw e, s')
          | None => (Normal tt, s')   (* clear() *)
          end
      end
  end.

(** *** The retrying client, [callLambdaWithStreaming] *)

(** The test of lines 79-83, as written. *)
Definition notRetryable (err : Error) : bool :=
  negb (includes (message err) INVALID_JSON_MESSAGE) &&
  negb (includes (message err) LAMBDA_STREAM_STALL) &&
  negb (includes (message err) "aborted").

(** The remote side: how the [n]-th invocation issued by this process
    answers the request it is sent. *)
Definition World (Req : Type) : Type := nat -> Req -> Settle Response.

(** [callLambdaWithStreaming].  Its recursion is on [retriesRemaining],
    a JavaScript number compared with [=== 0], so the embedding recurses
    on fuel; [None] means the fuel ran out.  The result also carries the
    number of invocations issued so far. *)
Fixpoint callLambdaWithStreaming {S Req} (fuel : nat) (tie : bool)
  (w : World Req) (options : Options Req) (h : OnMessage S)
  (retriesRemaining : Z) (n : nat) (s : S)
  : option (completion unit * S * nat) :=
  match fuel with
  | O => None
  | Datatypes.S fuel' =>
      match callLambdaWithStreamingWithoutRetry tie options h
              (w n (payload_ options)) s with
      | (Normal _, s') => Some (Normal tt, s', Datatypes.S n)
      | (Throw err, s') =>
          if retriesRemaining =? 0 then Some (Throw err, s', Datatypes.S n)
          else if notRetryable err then Some (Throw err, s', Datatypes.S n)
          else callLambdaWithStreaming fuel' tie w options h
                 (retriesRemaining - 1) (Datatypes.S n) s'
      end
  end.

(** The message a frame decodes to, if it decodes. *)
Definition decoded (f : Frame) : option StreamingMessage :=
  match innerPayload (messageTypeId f) (data f) with
  | Normal p =>
      Some {| successType := status f;
              message_ := {| type := messageTypeIdToMessageType (messageTypeId f);
                             payload := p |} |}
  | Throw _ => None
  end.

Definition frames_of (r : Response) : list Frame :=
  flat_map (fun ev => default [] (PayloadChunk ev)) (EventStream r).

(** [m] is among the messages the remote side puts on a stream that
    answers [req]. *)
Definition delivers {Req} (w : World Req) (req : Req) (m : StreamingMessage)
  : Prop :=
  exists n t res f,
    w n req = ResolvesAt t res /\ In f (frames_of res) /\ decoded f = Some m.

End Streaming.

End CallLambda.

(** ** The request payload ([LambdaPayload], from its uses in the sources) *)

Module Constants.

Inductive LambdaRoutines := renderer | other_routine (name : string).

(** The fields of the renderer payload that the modelled code reads.
    [chunk] and [frameRange] are checked for presence by the worker, so
    they are optional here. *)
Record LambdaPayload := mkPayload {
  type : LambdaRoutines;
  chunk : option Z;
  frameRange : option (Z * Z);
  attempt : Z;
  retriesLeft : Z;
  version : string;                 (* launchFunctionConfig.version *)
  progressEveryNthFrame : Z;
}.

Definition is_renderer (p : LambdaPayload) : bool :=
  match type p with renderer => true | other_routine _ => false end.

(** [String(payload.chunk)]. *)
Definition String_of_chunk (c : option Z) : string :=
  match c with
  | Some z => String_of_number z
  | None => "undefined"
  end.

(** The spread [{...payload, attempt: a, retriesLeft: r}]: a new object,
    the other fields copied. *)
Definition with_attempt (p : LambdaPayload) (a r : Z) : LambdaPayload :=
  {| type := type p; chunk := chunk p; frameRange := frameRange p;
     attempt := a; retriesLeft := r; version := version p;
     progressEveryNthFrame := progressEveryNthFrame p |}.

End Constants.

(** ** stream-renderer.ts *)

Module StreamRenderer.

Import Constants.
Import CallLambda.

Inductive StreamRendererResponse :=
| response_success
| response_error (error : string) (shouldRetry : bool).

(** How [streamRenderer], and the functions that call it, end: they throw
    an [Error], or (line 188) a string. *)
Inductive Outcome (A : Type) : Type :=
| Returned (a : A)
| ThrewError (e : Error)
| ThrewString (s : string).
Arguments Returned {A} a.
Arguments ThrewError {A} e.
Arguments ThrewString {A} s.

(** Reading the fields of a decoded payload ([message.payload.encoded]
    and the like); the payload types are declared in
    [functions/streaming/streaming.ts]. *)
Class PayloadView `{X : Externals} := {
  ErrorInfo : Type;
  payload_encoded : Payload -> Z;
  payload_rendered : Payload -> Z;
  payload_start : Payload -> Z;
  payload_error : Payload -> string;
  payload_shouldRetry : Payload -> bool;
  payload_errorInfo : Payload -> ErrorInfo;
}.

Section Orchestrator.

Context `{V : PayloadView}.

(** The calls made on the [overallProgress] helper. *)
Inductive ProgressCall :=
| setLambdaInvoked (chunk : option Z)
| setFrames (index : option Z) (encoded rendered : Z)
| addChunkCompleted (chunk : option Z) (start rendered : Z)
| addErrorWithoutUpload (errorInfo : ErrorInfo)
| addRetry (attempt time : Z) (chunk : option Z).

(** Everything the message handler and the orchestrator share. *)
Record State := mkState {
  progressCalls : list ProgressCall;     (* in call order *)
  fs : gmap string Payload;              (* what [writeFileSync] wrote *)
  files : list string;                   (* the [files] array *)
  resolved : option StreamRendererResponse;  (* the promise of [streamRenderer] *)
}.

Definition call_progress (c : ProgressCall) (s : State) : State :=
  {| progressCalls := progressCalls s ++ [c]; fs := fs s;
     files := files s; resolved := resolved s |}.

Definition writeFileSync (filename : string) (content : Payload) (s : State)
  : State :=
  {| progressCalls := progressCalls s; fs := <[filename := content]> (fs s);
     files := files s; resolved := resolved s |}.

Definition files_push (filename : string) (s : State) : State :=
  {| progressCalls := progressCalls s; fs := fs s;
     files := files s ++ [filename]; resolved := resolved s |}.

(** [resolve(r)]: only the first call settles the promise. *)
Definition resolve (r : StreamRendererResponse) (s : State) : State :=
  match resolved s with
  | Some _ => s
  | None =>
      {| progressCalls := progressCalls s; fs := fs s;
         files := files s; resolved := Some r |}
  end.

(** A fresh promise for a new call of [streamRenderer]. *)
Definition new_promise (s : State) : State :=
  {| progressCalls := progressCalls s; fs := fs s;
     files := files s; resolved := None |}.

Variable join : string -> string -> string.       (* path.join *)

Definition chunk_filename (outdir : string) (payload : LambdaPayload)
  (kind : string) : string :=
  join outdir
    ("chunk:" +:+ padStart0 (String_of_chunk (chunk payload)) 8 +:+ ":" +:+ kind).

(** The handler [receivedStreamingPayload] of [streamRenderer] (logging
    left out). *)
Definition receivedStreamingPayload (payload : LambdaPayload)
  (outdir : string) : OnMessage State :=
  fun sm s =>
    let message := message_ sm in
    let ty := CallLambda.type message in
    let pl := CallLambda.payload message in
    if String.eqb ty "lambda-invoked" then
      (Normal tt, call_progress (setLambdaInvoked (chunk payload)) s)
    else if String.eqb ty "frames-rendered" then
      (Normal tt,
       call_progress
         (setFrames (chunk payload) (payload_encoded pl) (payload_rendered pl)) s)
    else if String.eqb ty "video-chunk-rendered" then
      let filename := chunk_filename outdir payload "video" in
      (Normal tt, files_push filename (writeFileSync filename pl s))
    else if String.eqb ty "audio-chunk-rendered" then
      let filename := chunk_filename outdir payload "audio" in
      (Normal tt, files_push filename (writeFileSync filename pl s))
    else if String.eqb ty "chunk-complete" then
      (Normal tt,
       call_progress
         (addChunkCompleted (chunk payload) (payload_start pl) (payload_rendered pl)) s)
    else if String.eqb ty "error-occurred" then
      let s1 := call_progress (addErrorWithoutUpload (payload_errorInfo pl)) s in
      let s2 := call_progress (setFrames (chunk payload) 0 0) s1 in
      (Normal tt,
       resolve (response_error (payload_error pl) (payload_shouldRetry pl)) s2)
    else
      (Throw (new_Error ("Unknown message type " +:+ ty)), s).

Variable tie : bool.
Variable w : World LambdaPayload.
Variable currentRegion : string.     (* getCurrentRegionInFunction() *)

(** [streamRenderer]: the value its promise settles with.  The
    continuation of [await streamRenderer(..)] is run here after the
    stream has been consumed to its end, although the promise may have
    been resolved earlier by an [error-occurred] message; the value is the
    same.  [None] only if the client ran out of fuel. *)
Definition streamRenderer (fuel : nat) (payload : LambdaPayload)
  (functionName outdir : string) (n : nat) (s : State)
  : option (Outcome StreamRendererResponse * State * nat) :=
  if negb (is_renderer payload) then
    Some (ThrewError (new_Error "Expected renderer type"), s, n)
  else
    let options :=
      {| functionName := functionName; payload_ := payload;
         region := currentRegion |} in
    match callLambdaWithStreaming fuel tie w options
            (receivedStreamingPayload payload outdir) 2 n (new_promise s) with
    | None => None
    | Some (c, s', n') =>
        let s'' :=
          match c with
          | Normal _ => resolve response_success s'
          | Throw err => resolve (response_error (stack err) false) s'
          end in
        match resolved s'' with
        | Some r => Some (Returned r, s'', n')
        | None => None                       (* does not occur *)
        end
    end.

(** The client is called with [retriesRemaining: 2]: three invocations at
    most. *)
Definition clientFuel : nat := 3.

Variable Date_now : Z -> Z.          (* the clock, read at a retry *)

(** What lines 186-209 do with the result of an attempt. *)
Inductive Decision :=
| Done
| Fatal (error : string)
| Retry (next : LambdaPayload).

Definition decide_result (payload : LambdaPayload) (result : StreamRendererResponse)
  : Decision :=
  match result with
  | response_error err shouldRetry =>
      if negb shouldRetry then Fatal err
      else Retry (with_attempt payload (attempt payload + 1) (retriesLeft payload - 1))
  | response_success => Done
  end.

(** [streamRendererFunctionWithRetry].  The last component of the result
    lists the payload of every attempt, in order. *)
Fixpoint streamRendererFunctionWithRetry (fuel : nat) (payload : LambdaPayload)
  (functionName outdir : string) (n : nat) (s : State)
  : option (Outcome unit * State * nat * list LambdaPayload) :=
  match fuel with
  | O => None
  | Datatypes.S fuel' =>
      if negb (is_renderer payload) then
        Some (ThrewError (new_Error "Expected renderer type"), s, n, [])
      else
        match streamRenderer clientFuel payload functionName outdir n s with
        | None => None
        | Some (ThrewError e, s', n') => Some (ThrewError e, s', n', [payload])
        | Some (ThrewString e, s', n') => Some (ThrewString e, s', n', [payload])
        | Some (Returned result, s', n') =>
            match decide_result payload result with
            | Done => Some (Returned tt, s', n', [payload])
            | Fatal err => Some (ThrewString err, s', n', [payload])
            | Retry next =>
                let s'' :=
                  call_progress
                    (addRetry (attempt payload + 1) (Date_now (attempt payload))
                              (chunk payload)) s' in
                match streamRendererFunctionWithRetry fuel' next functionName
                        outdir n' s'' with
                | None => None
                | Some (o, sf, nf, specs) => Some (o, sf, nf, payload :: specs)
                end
            end
        end
  end.

End Orchestrator.

End StreamRenderer.

(** ** renderer.ts *)

Module Renderer.

Import Constants.

(** What lies outside these sources on the worker side:
    [shared/is-flaky-error] and [helpers/write-lambda-error]. *)
Class WorkerExternals := {
  isFlakyError : Error -> bool;
  TmpDirState : Type;
  getTmpDirStateIfENoSp : string -> TmpDirState;
}.

Section Worker.

Context `{WX : WorkerExternals}.

Record ErrorInfo := mkErrorInfo {
  ei_name : string;
  ei_message : string;
  ei_stack : string;
  ei_chunk : option Z;
  ei_isFatal : bool;
  ei_tmpDir : TmpDirState;
  ei_attempt : Z;
  ei_totalAttempts : Z;
  ei_willRetry : bool;
}.

(** The messages given to [onStream]. *)
Inductive WorkerMessage :=
| lambda_invoked (attempt : Z)
| frames_rendered (rendered encoded : Z)
| video_chunk_rendered (payload : bytes)
| audio_chunk_rendered (payload : bytes)
| chunk_complete (rendered start : Z)
| error_occurred (error : string) (shouldRetry : bool) (errorInfo : ErrorInfo).

Definition is_error_occurred (m : WorkerMessage) : bool :=
  match m with error_occurred _ _ _ => true | _ => false end.

Inductive AudioEval := audio_yes | audio_no | audio_maybe.

(** A call that [internalRenderMedia] makes back into the handler. *)
Inductive RenderCallback :=
| cb_onStart
| cb_onProgress (renderedFrames encodedFrames : Z).

(** The collaborators of one invocation: what each external call returns
    or how its promise settles. *)
Record RenderEnv := mkRenderEnv {
  VERSION : string;
  getBrowserInstance : completion unit;
  tmpDir : string -> string;                  (* RenderInternals.tmpDir *)
  RENDERER_PATH_TOKEN : string;
  path_join : string -> string -> string;
  videoExtension : string;
  audioExtension : option string;
  willRenderAudioEval : AudioEval;
  isAudioCodec : bool;
  resolvedProps : completion unit;
  inputProps : completion unit;
  allFramesLength : Z;                        (* getFramesToRender(..).length *)
  renderCallbacks : list RenderCallback;
  renderResult : completion unit;             (* internalRenderMedia's promise *)
  readFileSync : string -> completion bytes;
  sent : WorkerMessage -> completion unit;    (* the promise [onStream] returns *)
  rm : string -> completion unit;             (* fs.promises.rm *)
  start_time : Z;
  end_time : Z;
}.

(** What an invocation leaves behind: the messages passed to [onStream],
    the paths [fs.promises.rm] was called on, and whether the [finally]
    block ran. *)
Record WState := mkWState {
  emitted : list WorkerMessage;
  rmIssued : list string;
  finalized : bool;
}.

Definition initial : WState :=
  {| emitted := []; rmIssued := []; finalized := false |}.

(** A state and exception monad for the handler's body. *)
Definition M (A : Type) : Type := WState -> completion A * WState.

Definition ret {A} (a : A) : M A := fun s => (Normal a, s).

Definition throw {A} (e : Error) : M A := fun s => (Throw e, s).

Definition bind {A B} (m : M A) (k : A -> M B) : M B :=
  fun s =>
    match m s with
    | (Normal a, s') => k a s'
    | (Throw e, s') => (Throw e, s')
    end.

#[global] Instance M_ret : MRet M := @ret.
#[global] Instance M_bind : MBind M := fun A B k m => bind m k.

(** Awaiting a promise, or calling a function that may throw. *)
Definition await {A} (c : completion A) : M A := fun s => (c, s).

(** [onStream(m)]: the message is handed over; the returned promise is
    awaited later, if at all. *)
Definition onStream (m : WorkerMessage) : M unit :=
  fun s =>
    (Normal tt,
     {| emitted := emitted s ++ [m]; rmIssued := rmIssued s;
        finalized := finalized s |}).

(** The call [fs.promises.rm(path, ..)] inside the array literal. *)
Definition issue_rm (path : string) : M unit :=
  fun s =>
    (Normal tt,
     {| emitted := emitted s; rmIssued := rmIssued s ++ [path];
        finalized := finalized s |}).

Definition run_finally : M unit :=
  fun s =>
    (Normal tt,
     {| emitted := emitted s; rmIssued := rmIssued s; finalized := true |}).

(** [a % b === 0] on integers ([a % 0] is [NaN]). *)
Definition rem_is_zero (a b : Z) : bool :=
  if b =? 0 then false else Z.rem a b =? 0.

Definition onProgress (params : LambdaPayload) (env : RenderEnv)
  (renderedFrames encodedFrames : Z) : M unit :=
  let allFramesRendered := allFramesLength env =? renderedFrames in
  let allFramesEncoded := allFramesLength env =? encodedFrames in
  let frameReportPoint :=
    (rem_is_zero renderedFrames (progressEveryNthFrame params) || allFramesRendered)
    && negb allFramesEncoded in
  let encodedFramesReportPoint :=
    (rem_is_zero encodedFrames (progressEveryNthFrame params) || allFramesEncoded)
    && allFramesRendered in
  if frameReportPoint || encodedFramesReportPoint
  then onStream (frames_rendered renderedFrames encodedFrames)
  else ret tt.

Definition run_callback (params : LambdaPayload) (env : RenderEnv)
  (cb : RenderCallback) : M unit :=
  match cb with
  | cb_onStart => onStream (lambda_invoked (attempt params))
  | cb_onProgress r e => onProgress params env r e
  end.

Fixpoint run_callbacks (params : LambdaPayload) (env : RenderEnv)
  (cbs : list RenderCallback) : M unit :=
  match cbs with
  | [] => ret tt
  | cb :: rest => run_callback params env cb ;; run_callbacks params env rest
  end.

(** [await new Promise(.. internalRenderMedia(..) ..)], lines 170-289. *)
Definition internalRenderMedia (params : LambdaPayload) (env : RenderEnv)
  : M unit :=
  run_callbacks params env (renderCallbacks env) ;; await (renderResult env).

(** The first rejection among the promises given to [Promise.all], in
    the order of the array. *)
Fixpoint Promise_all (ps : list (completion unit)) : completion unit :=
  match ps with
  | [] => Normal tt
  | Normal _ :: rest => Promise_all rest
  | Throw e :: _ => Throw e
  end.

Definition when_some {A} (o : option A) (f : A -> M (list (completion unit)))
  : M (list (completion unit)) :=
  match o with
  | Some a => f a
  | None => ret []
  end.

(** The scratch paths of an invocation for chunk [c]. *)
Definition outputPath (env : RenderEnv) : string :=
  tmpDir env "remotion-render-".

Definition outdir (env : RenderEnv) : string :=
  tmpDir env (RENDERER_PATH_TOKEN env).

Definition localchunk (c : Z) : string :=
  "localchunk-" +:+ padStart0 (String_of_number c) 8.

Definition videoOutputLocation (env : RenderEnv) (c : Z) : string :=
  path_join env (outdir env) (localchunk c +:+ "." +:+ videoExtension env).

Definition audioOutputLocation (env : RenderEnv) (c : Z) : option string :=
  match willRenderAudioEval env with
  | audio_no => None
  | _ =>
      if isAudioCodec env then None
      else match audioExtension env with
           | Some ext =>
               if String.eqb ext "" then None
               else Some (path_join env (outdir env) (localchunk c +:+ "." +:+ ext))
           | None => None
           end
  end.

(** Lines 291-393: the artifacts are read and handed to [onStream], then
    the removals are issued and everything is awaited together. *)
Definition streamAndCleanUp (env : RenderEnv) (c : Z) : M unit :=
  audioChunkRenderedPromise ←
    when_some (audioOutputLocation env c)
      (fun l =>
         content ← await (readFileSync env l);
         onStream (audio_chunk_rendered content) ;;
         ret [sent env (audio_chunk_rendered content)]);
  videoChunkRenderedPromise ←
    (videoPayload ← await (readFileSync env (videoOutputLocation env c));
     let m := if isAudioCodec env
              then audio_chunk_rendered videoPayload
              else video_chunk_rendered videoPayload in
     onStream m ;;
     ret [sent env m]);
  onStream (chunk_complete (end_time env) (start_time env)) ;;
  (* the [.catch] of [chunkCompletePromise] swallows a rejection *)
  let chunkCompletePromise := [Normal tt] in
  issue_rm (videoOutputLocation env c) ;;
  rmAudio ←
    when_some (audioOutputLocation env c)
      (fun l => issue_rm l ;; ret [rm env l]);
  issue_rm (outputPath env) ;;
  await
    (Promise_all
       (audioChunkRenderedPromise ++ videoChunkRenderedPromise
        ++ chunkCompletePromise ++ [rm env (videoOutputLocation env c)]
        ++ rmAudio ++ [rm env (outputPath env)])).

(** [renderHandler] (logging and the timing table left out).
    [path.join] never returns the empty string, so [if (videoOutputLocation)]
    always holds and [if (audioOutputLocation)] only tests for [null]. *)
Definition renderHandler (params : LambdaPayload) (env : RenderEnv) : M unit :=
  if negb (is_renderer params) then throw (new_Error "Params must be renderer")
  else if negb (String.eqb (version params) (VERSION env)) then
    throw (new_Error
      ("The version of the function that was specified as " +:+ dquote
       +:+ "rendererFunctionName" +:+ dquote +:+ " is "
       +:+ VERSION env
       +:+ " but the version of the function that invoked the render is "
       +:+ version params
       +:+ ". Please make sure that the version of the function that is specified as "
       +:+ dquote +:+ "rendererFunctionName" +:+ dquote
       +:+ " is the same as the version of the function that is invoked."))
  else
    await (getBrowserInstance env) ;;
    match chunk params, frameRange params with
    | None, _ => throw (new_Error "must pass chunk")
    | Some _, None => throw (new_Error "must pass framerange")
    | Some c, Some _ =>
        match willRenderAudioEval env with
        | audio_maybe =>
            throw (new_Error "Cannot determine whether to render audio or not")
        | _ =>
            await (resolvedProps env) ;;
            await (inputProps env) ;;
            internalRenderMedia params env ;;
            streamAndCleanUp env c
        end
    end.

(** Everything up to and including [internalRenderMedia] goes through,
    for chunk [c]. *)
Definition rendering_completes (params : LambdaPayload) (env : RenderEnv)
  (c : Z) : Prop :=
  is_renderer params = true
  /\ version params = VERSION env
  /\ getBrowserInstance env = Normal tt
  /\ chunk params = Some c
  /\ (exists range, frameRange params = Some range)
  /\ willRenderAudioEval env <> audio_maybe
  /\ resolvedProps env = Normal tt
  /\ inputProps env = Normal tt
  /\ renderResult env = Normal tt.

(** [fs.readFileSync] finds the artifacts the engine was asked for. *)
Definition artifacts_readable (env : RenderEnv) (c : Z) : Prop :=
  (exists v, readFileSync env (videoOutputLocation env c) = Normal v)
  /\ (forall l, audioOutputLocation env c = Some l ->
       exists a, readFileSync env l = Normal a).

Definition option_list {A} (o : option A) : list A :=
  match o with Some a => [a] | None => [] end.

(** Lines 433-438. *)
Definition shouldRetry_of (params : LambdaPayload) (err : Error) : bool :=
  let isRetryableError := isFlakyError err in
  let shouldNotRetry := String.eqb (name err) "CancelledError" in
  isRetryableError && (0 <? retriesLeft params) && negb shouldNotRetry.

Definition errorOccurred (params : LambdaPayload) (err : Error) : WorkerMessage :=
  let shouldRetry := shouldRetry_of params err in
  error_occurred (stack err) shouldRetry
    {| ei_name := name err;
       ei_message := message err;
       ei_stack := stack err;
       ei_chunk := chunk params;
       ei_isFatal := negb shouldRetry;
       ei_tmpDir := getTmpDirStateIfENoSp (stack err);
       ei_attempt := attempt params;
       ei_totalAttempts := retriesLeft params + attempt params;
       ei_willRetry := shouldRetry |}.

(** [rendererHandler].  [NODE_ENV] is [process.env.NODE_ENV]. *)
Definition rendererHandler (NODE_ENV : option string) (params : LambdaPayload)
  (env : RenderEnv) : M unit :=
  if negb (is_renderer params) then throw (new_Error "Params must be renderer")
  else
    fun s =>
      let '(c, s1) :=
        match renderHandler params env s with
        | (Normal _, s') => (Normal tt, s')
        | (Throw err, s') =>
            if bool_decide (NODE_ENV = Some "test") then (Throw err, s')
            else (onStream (errorOccurred params err) ;; throw err) s'
        end in
      (c, snd (run_finally s1)).

Definition not_error (m : WorkerMessage) : Prop := is_error_occurred m = false.

(** A computation that hands no [error-occurred] message to [onStream]. *)
Definition quiet {A} (m : M A) : Prop :=
  forall s, exists extra,
    emitted (snd (m s)) = (emitted s ++ extra)%list /\ Forall not_error extra.

End Worker.

End Renderer.

(** ** use-media-buffering.ts *)

Module UseMediaBuffering.

(** The closures the effect registers as listeners.  [onCanPlay k] is the
    one created by the [k]-th run of [onWaiting]; it unblocks the handle
    that [buffer.delayPlayback()] returned to that run. *)
Inductive Listener :=
| onWaiting
| onCanPlay (handle : nat).

#[global] Instance Listener_eq_dec : EqDecision Listener.
Proof. solve_decision. Defined.

Record Registration := mkRegistration {
  event : string;
  listener : Listener;
  once : bool;
}.

(** The state the effect works on: the listeners on [element.current],
    the variable [cleanup] ([None] is [undefined], [Some l] the closure
    that removes the [canplay] listener [l]), and the handles of the
    buffer. *)
Record EffectState := mkEffectState {
  listeners : list Registration;
  cleanup : option Listener;
  delayed : nat;                   (* calls of delayPlayback() so far *)
  unblocked : list nat;            (* handles whose unblock() was called *)
}.

Definition same_listener (ev : string) (l : Listener) (r : Registration) : bool :=
  String.eqb (event r) ev && bool_decide (listener r = l).

(** [addEventListener]: a listener already registered for the event is
    not added again. *)
Definition addEventListener (ev : string) (l : Listener) (once : bool)
  (s : EffectState) : EffectState :=
  if existsb (same_listener ev l) (listeners s) then s
  else {| listeners := listeners s ++ [mkRegistration ev l once];
          cleanup := cleanup s; delayed := delayed s; unblocked := unblocked s |}.

Definition removeEventListener (ev : string) (l : Listener) (s : EffectState)
  : EffectState :=
  {| listeners := filter (fun r => negb (same_listener ev l r)) (listeners s);
     cleanup := cleanup s; delayed := delayed s; unblocked := unblocked s |}.

(** The body of a listener. *)
Definition run_listener (l : Listener) (s : EffectState) : EffectState :=
  match l with
  | onWaiting =>
      let handle := delayed s in
      let s1 := {| listeners := listeners s; cleanup := cleanup s;
                   delayed := Datatypes.S (delayed s); unblocked := unblocked s |} in
      let s2 := addEventListener "canplay" (onCanPlay handle) true s1 in
      {| listeners := listeners s2; cleanup := Some (onCanPlay handle);
         delayed := delayed s2; unblocked := unblocked s2 |}
  | onCanPlay handle =>
      {| listeners := listeners s; cleanup := cleanup s;
         delayed := delayed s; unblocked := unblocked s ++ [handle] |}
  end.

(** Dispatching an event on the element: the listeners registered for it
    at that moment run in order; one registered with [once] is removed
    before it runs. *)
Definition dispatch (ev : string) (s : EffectState) : EffectState :=
  fold_left
    (fun acc r =>
       if String.eqb (event r) ev then
         let acc' := if once r then removeEventListener ev (listener r) acc
                     else acc in
         run_listener (listener r) acc'
       else acc)
    (listeners s) s.

(** The body of the effect.  [None] when it returns without a cleanup
    function; otherwise the state in which the returned function
    [() => { cleanup(); }] stays callable. *)
Definition effect (current : option (list Registration)) (shouldBuffer : bool)
  : option EffectState :=
  match current with
  | None => None
  | Some ls =>
      if negb shouldBuffer then None
      else
        let s0 := {| listeners := ls; cleanup := None; delayed := O;
                     unblocked := [] |} in
        Some (addEventListener "waiting" onWaiting false s0)
  end.

(** Calling the function the effect returned: it calls the variable
    [cleanup], which throws a [TypeError] while [cleanup] is
    [undefined]. *)
Definition returned_cleanup (s : EffectState) : completion unit * EffectState :=
  match cleanup s with
  | None =>
      (Throw {| name := "TypeError"; message := "cleanup is not a function";
                stack := "TypeError: cleanup is not a function" |}, s)
  | Some l => (Normal tt, removeEventListener "canplay" l s)
  end.

(** A mount, the events dispatched on the element while the effect is
    live, then the cleanup React runs. *)
Definition mount_and_unmount (current : option (list Registration))
  (shouldBuffer : bool) (events : list string)
  : option (completion unit * EffectState) :=
  match effect current shouldBuffer with
  | None => None
  | Some s0 => Some (returned_cleanup (fold_left (fun s ev => dispatch ev s) events s0))
  end.

End UseMediaBuffering.

(** ** The two sides together *)

Module Pipeline.

Import Constants.
Import CallLambda.

Section FromWorker.

Context `{V : StreamRenderer.PayloadView} `{WX : Renderer.WorkerExternals}.

(** The [shouldRetry] field of the decoded message [m] is the one of an
    [error-occurred] message that [rendererHandler], run on the request
    [q], handed to [onStream]. *)
Definition flag_from_worker (q : LambdaPayload) (m : StreamingMessage) : Prop :=
  exists NODE_ENV env e sr info,
    In (Renderer.error_occurred e sr info)
       (Renderer.emitted
          (snd (Renderer.rendererHandler NODE_ENV q env Renderer.initial)))
    /\ StreamRenderer.payload_shouldRetry (payload (message_ m)) = sr.

(** Every [error-occurred] message that answers a request was sent by the
    worker handler run on that request. *)
Definition errors_from_worker (w : World LambdaPayload) : Prop :=
  forall q m,
    delivers w q m ->
    CallLambda.type (message_ m) = "error-occurred" ->
    flag_from_worker q m.



(** The promise is resolved with [shouldRetry = true] only while retries
    are left. *)
Definition gated (q : LambdaPayload) (s : StreamRenderer.State) : Prop :=
  forall e, StreamRenderer.resolved s = Some (StreamRenderer.response_error e true) -> 0 < retriesLeft q.

End FromWorker.

End Pipeline.

(** ** A concrete instance of the collaborators, for running the model *)

Module Fixture.

Import Constants.
Import CallLambda.

(** The JSON values that occur in the runs below. *)
Record TestJson := mkTestJson {
  tj_encoded : Z;
  tj_rendered : Z;
  tj_start : Z;
  tj_error : string;
  tj_shouldRetry : bool;
}.

Definition quoted (s : string) : string := dquote +:+ s +:+ dquote.

Definition text_retry : string :=
  "{" +:+ quoted "error" +:+ ":" +:+ quoted "boom" +:+ ","
  +:+ quoted "shouldRetry" +:+ ":true}".

Definition text_fatal : string :=
  "{" +:+ quoted "error" +:+ ":" +:+ quoted "boom" +:+ ","
  +:+ quoted "shouldRetry" +:+ ":false}".

(** A parser that knows the three texts above and rejects everything
    else, in particular the truncated object [{]. *)
Definition parse (s : string) : option TestJson :=
  if String.eqb s "{}" then Some (mkTestJson 0 0 0 "" false)
  else if String.eqb s text_retry then Some (mkTestJson 0 0 0 "boom" true)
  else if String.eqb s text_fatal then Some (mkTestJson 0 0 0 "boom" false)
  else None.

(** One possible content of the two tables of [streaming.ts]: the media
    types are [binary], the others [json]. *)
Definition typeOfId (id : Z) : string :=
  if id =? 1 then "frames-rendered"
  else if id =? 2 then "error-occurred"
  else if id =? 3 then "video-chunk-rendered"
  else if id =? 4 then "audio-chunk-rendered"
  else if id =? 5 then "chunk-complete"
  else "lambda-invoked".

Definition formats (ty : string) : option Format :=
  if String.eqb ty "video-chunk-rendered" then Some binary
  else if String.eqb ty "audio-chunk-rendered" then Some binary
  else if String.eqb ty "frames-rendered" then Some json
  else if String.eqb ty "error-occurred" then Some json
  else if String.eqb ty "chunk-complete" then Some json
  else if String.eqb ty "lambda-invoked" then Some json
  else None.

#[global] Instance externals : Externals := {|
  JSON := TestJson;
  JSON_parse := parse;
  TextDecoder_decode := string_of_list_byte;
  messageTypeIdToMessageType := typeOfId;
  formatMap := formats;
|}.

Definition of_json {A} (f : TestJson -> A) (d : A) (p : Payload) : A :=
  match p with
  | PayloadJson v => f v
  | PayloadBytes _ => d
  end.

#[global] Instance view : StreamRenderer.PayloadView := {|
  StreamRenderer.ErrorInfo := unit;
  StreamRenderer.payload_encoded := of_json tj_encoded 0;
  StreamRenderer.payload_rendered := of_json tj_rendered 0;
  StreamRenderer.payload_start := of_json tj_start 0;
  StreamRenderer.payload_error := of_json tj_error "";
  StreamRenderer.payload_shouldRetry := of_json tj_shouldRetry false;
  StreamRenderer.payload_errorInfo := fun _ => tt;
|}.

Definition frame (id : Z) (text : string) : Frame :=
  {| status := success; messageTypeId := id; data := list_byte_of_string text |}.

(** A response that delivers [frames] in one chunk and then completes,
    with [code] as its error code. *)
Definition response (frames : list Frame) (code : option string) : Response :=
  {| requestId := "req";
     EventStream :=
       [ {| PayloadChunk := Some frames; InvokeComplete := None |};
         {| PayloadChunk := None;
            InvokeComplete := Some {| ErrorCode := code; ErrorDetails := "details" |} |} ];
     streamError := None |}.

Definition payload0 : LambdaPayload :=
  {| Constants.type := renderer; chunk := Some 7; frameRange := Some (0, 9);
     attempt := 1; retriesLeft := 1; version := "4.0.0";
     progressEveryNthFrame := 5 |}.

Definition options0 : Options LambdaPayload :=
  {| functionName := "fn"; payload_ := payload0; region := "eu-central-1" |}.

(** A handler that counts the messages it is given. *)
Definition counting : OnMessage nat := fun _ k => (Normal tt, Datatypes.S k).

(** The first invocation delivers a [frames-rendered] frame cut short;
    every later one delivers a complete stream. *)
Definition truncated_then_fine : World LambdaPayload :=
  fun n _ =>
    match n with
    | O => ResolvesAt 20 (response [frame 1 "{"] None)
    | _ => ResolvesAt 20 (response [frame 1 "{}"; frame 5 "{}"] None)
    end.

(** [path.join] on two plain segments. *)
Definition join (a b : string) : string := a +:+ "/" +:+ b.

Definition state0 : StreamRenderer.State :=
  {| StreamRenderer.progressCalls := []; StreamRenderer.fs := ∅;
     StreamRenderer.files := []; StreamRenderer.resolved := None |}.

Definition payload_no_retries : LambdaPayload :=
  with_attempt payload0 1 0.

(** Every invocation reports a fatal failure and then still delivers a
    video chunk. *)
Definition error_then_video : World LambdaPayload :=
  fun _ _ =>
    ResolvesAt 20
      (response [frame 2 text_fatal; frame 3 "VIDEO"; frame 1 "{}"] None).

(** The first invocation reports a retryable failure and then completes
    with the error code [Unhandled]; the next one completes the chunk. *)
Definition retry_then_unhandled : World LambdaPayload :=
  fun n _ =>
    match n with
    | O => ResolvesAt 20 (response [frame 2 text_retry] (Some "Unhandled"))
    | _ => ResolvesAt 20 (response [frame 5 "{}"] None)
    end.

(** No invocation is ever acknowledged. *)
Definition never_acknowledged : World LambdaPayload :=
  fun _ _ => NeverSettles.

Definition clock (a : Z) : Z := 1000 + a.

#[global] Instance worker : Renderer.WorkerExternals := {|
  Renderer.isFlakyError := fun e => includes (message e) "Target closed";
  Renderer.TmpDirState := unit;
  Renderer.getTmpDirStateIfENoSp := fun _ => tt;
|}.

Definition flaky : Error := new_Error "Protocol error: Target closed".

(** An invocation in which the engine reports [result] after the calls
    [callbacks], and every send settles as [send]. *)
Definition render_env (callbacks : list Renderer.RenderCallback)
  (result send : completion unit) : Renderer.RenderEnv :=
  {| Renderer.VERSION := "4.0.0";
     Renderer.getBrowserInstance := Normal tt;
     Renderer.tmpDir := fun prefix => "/tmp/" +:+ prefix +:+ "x1";
     Renderer.RENDERER_PATH_TOKEN := "remotion-tmp-renderer";
     Renderer.path_join := join;
     Renderer.videoExtension := "ts";
     Renderer.audioExtension := Some "aac";
     Renderer.willRenderAudioEval := Renderer.audio_yes;
     Renderer.isAudioCodec := false;
     Renderer.resolvedProps := Normal tt;
     Renderer.inputProps := Normal tt;
     Renderer.allFramesLength := 10;
     Renderer.renderCallbacks := callbacks;
     Renderer.renderResult := result;
     Renderer.readFileSync := fun _ => Normal [];
     Renderer.sent := fun _ => send;
     Renderer.rm := fun _ => Normal tt;
     Renderer.start_time := 100;
     Renderer.end_time := 200 |}.

Definition env_ok : Renderer.RenderEnv :=
  render_env
    [Renderer.cb_onStart; Renderer.cb_onProgress 5 0; Renderer.cb_onProgress 10 10]
    (Normal tt) (Normal tt).

Definition env_render_fails : Renderer.RenderEnv :=
  render_env [Renderer.cb_onStart; Renderer.cb_onProgress 5 0]
    (Throw flaky) (Normal tt).

Definition busy : Error := new_Error "EBUSY: resource busy or locked".

(** Everything succeeds except the removals. *)
Definition env_removal_fails : Renderer.RenderEnv :=
  {| Renderer.VERSION := "4.0.0";
     Renderer.getBrowserInstance := Normal tt;
     Renderer.tmpDir := fun prefix => "/tmp/" +:+ prefix +:+ "x1";
     Renderer.RENDERER_PATH_TOKEN := "remotion-tmp-renderer";
     Renderer.path_join := join;
     Renderer.videoExtension := "ts";
     Renderer.audioExtension := Some "aac";
     Renderer.willRenderAudioEval := Renderer.audio_yes;
     Renderer.isAudioCodec := false;
     Renderer.resolvedProps := Normal tt;
     Renderer.inputProps := Normal tt;
     Renderer.allFramesLength := 10;
     Renderer.renderCallbacks := [Renderer.cb_onStart];
     Renderer.renderResult := Normal tt;
     Renderer.readFileSync := fun _ => Normal [];
     Renderer.sent := fun _ => Normal tt;
     Renderer.rm := fun _ => Throw busy;
     Renderer.start_time := 100;
     Renderer.end_time := 200 |}.

Definition env_send_fails : Renderer.RenderEnv :=
  render_env
    [Renderer.cb_onStart; Renderer.cb_onProgress 5 0; Renderer.cb_onProgress 10 10]
    (Normal tt) (Throw (new_Error "write EPIPE")).

(** The bytes the worker's messages travel as. *)
Definition encode (m : Renderer.WorkerMessage) : Frame :=
  match m with
  | Renderer.lambda_invoked _ => frame 6 "{}"
  | Renderer.frames_rendered _ _ => frame 1 "{}"
  | Renderer.video_chunk_rendered b =>
      {| status := success; messageTypeId := 3; data := b |}
  | Renderer.audio_chunk_rendered b =>
      {| status := success; messageTypeId := 4; data := b |}
  | Renderer.chunk_complete _ _ => frame 5 "{}"
  | Renderer.error_occurred _ sr _ =>
      frame 2 (if sr then text_retry else text_fatal)
  end.

(** A remote side that runs the worker handler on the request it is
    sent: the first invocation hits a flaky failure of the engine, the
    later ones render the chunk. *)
Definition worker_world : World LambdaPayload :=
  fun n q =>
    let env := match n with O => env_render_fails | _ => env_ok end in
    let '(c, s) := Renderer.rendererHandler None q env Renderer.initial in
    ResolvesAt 20
      (response (map encode (Renderer.emitted s))
                (if is_throw c then Some "Unhandled" else None)).

End Fixture.

(** ** call-lambda.ts, the unary call *)

Module CallLambdaUnary.

Import CallLambda.

(** What [callLambda] sees of a parsed response [res]: [null], whose
    field [type] cannot be read; an error response, [res.type === 'error'],
    with the message [new Error(res.message)] gets and [res.stack], both
    strings in the type [OrError]; or any other value. *)
Inductive ResponseShape :=
  | shape_null
  | shape_error (message stack : string)
  | shape_other.

(** What the unary path needs besides [Externals]: [JSON.stringify] on a
    string, the shape of a parsed response, and the message and stack of
    the [TypeError] the engine throws on [null.type]. *)
Class UnaryExternals `{X : Externals} := {
  JSON_stringify : string -> string;
  response_shape : JSON -> ResponseShape;
  null_read_message : string;
  null_read_stack : string;
}.

Section Unary.

Context `{U : UnaryExternals}.

(** [new TextDecoder('utf-8').decode(res.Payload)]; a missing payload
    decodes to the empty string. *)
Definition decode_payload (p : option bytes) : string :=
  match p with
  | Some b => TextDecoder_decode b
  | None => ""
  end.

(** [callLambdaWithoutRetry]; [send] is how the promise of
    [client.send(new InvokeCommand(..))] settles, with [res.Payload]. *)
Definition callLambdaWithoutRetry (type : string)
  (send : completion (option bytes)) : completion JSON :=
  match send with
  | Throw e => Throw e
  | Normal p =>
      let decoded := decode_payload p in
      match JSON_parse decoded with
      | Some v => Normal v
      | None =>
          Throw (new_Error ("Invalid JSON (" +:+ type +:+ "): "
                            +:+ JSON_stringify decoded))
      end
  end.

(** The [TypeError] of reading [res.type] when [res] is [null]. *)
Definition TypeError_null_read : Error :=
  {| name := "TypeError"; message := null_read_message;
     stack := null_read_stack |}.

(** [callLambda]. *)
Definition callLambda (type : string) (send : completion (option bytes))
  : completion JSON :=
  match callLambdaWithoutRetry type send with
  | Throw e => Throw e
  | Normal res =>
      match response_shape res with
      | shape_null => Throw TypeError_null_read
      | shape_error message stack =>
          Throw {| name := "Error"; message := message; stack := stack |}
      | shape_other => Normal res
      end
  end.

End Unary.

End CallLambdaUnary.

(** ** Notions used to state properties of the orchestrator *)

Module StreamRendererSpec.

Import Constants.
Import CallLambda.
Import StreamRenderer.

(** The message types the handler of [streamRenderer] knows. *)
Definition known_types : list string :=
  ["lambda-invoked"; "frames-rendered"; "video-chunk-rendered";
   "audio-chunk-rendered"; "chunk-complete"; "error-occurred"].

Section Notions.

Context `{V : PayloadView}.

(** Every recorded path names a file that was written. *)
Definition files_written (s : State) : Prop :=
  forall f, In f (files s) -> is_Some (fs s !! f).

Definition is_addRetry (c : ProgressCall) : bool :=
  match c with addRetry _ _ _ => true | _ => false end.

(** The retry events among the calls on the progress helper. *)
Definition retries_of (s : State) : list ProgressCall :=
  List.filter is_addRetry (progressCalls s).

(** The retry event the orchestrator records after a failed attempt with
    payload [q]. *)
Definition retry_record (Date_now : Z -> Z) (q : LambdaPayload) : ProgressCall :=
  addRetry (attempt q + 1) (Date_now (attempt q)) (chunk q).

End Notions.

End StreamRendererSpec.

(** ** Notions used to state properties of the worker *)

Module RendererSpec.

Import Constants.
Import Renderer.

Section Notions.

Context `{WX : WorkerExternals}.

(** Whether a progress callback is forwarded. *)
Definition reported (params : LambdaPayload) (env : RenderEnv)
  (renderedFrames encodedFrames : Z) : bool :=
  (allFramesLength env =? renderedFrames)
  || (negb (progressEveryNthFrame params =? 0)
      && (Z.rem renderedFrames (progressEveryNthFrame params) =? 0)
      && negb (allFramesLength env =? encodedFrames)).

(** The message the main artifact is sent as. *)
Definition main_message (env : RenderEnv) (content : bytes) : WorkerMessage :=
  if isAudioCodec env then audio_chunk_rendered content
  else video_chunk_rendered content.

(** The message of the separate audio artifact, if there is one and it
    can be read. *)
Definition audio_messages (env : RenderEnv) (c : Z) : list WorkerMessage :=
  match audioOutputLocation env c with
  | Some l =>
      match readFileSync env l with
      | Normal a => [audio_chunk_rendered a]
      | Throw _ => []
      end
  | None => []
  end.

(** The messages of the callbacks of the engine. *)
Definition progress_messages (params : LambdaPayload) (env : RenderEnv)
  : list WorkerMessage :=
  emitted (snd (run_callbacks params env (renderCallbacks env) initial)).

End Notions.

End RendererSpec.

(** ** Notions used to state properties of the buffering effect *)

Module UseMediaBufferingSpec.

Import UseMediaBuffering.

(** The registration of [onWaiting], and the one [onWaiting] makes for
    the handle [h]. *)
Definition waiting_reg : Registration := mkRegistration "waiting" onWaiting false.

Definition canplay_reg (h : nat) : Registration :=
  mkRegistration "canplay" (onCanPlay h) true.

(** The effect mounted on an element without listeners, after [events]. *)
Definition after_events (events : list string) : option EffectState :=
  match effect (Some []) true with
  | Some s0 => Some (fold_left (fun s ev => dispatch ev s) events s0)
  | None => None
  end.

(** The shape of the state while the effect is live: the listener for
    [waiting], then one [canplay] listener for each handle of [pending];
    together with the unblocked handles these are all handles handed out;
    [cleanup] is unassigned before the first [waiting] event and then
    removes the listener of the latest handle. *)
Definition live (s : EffectState) (pending : list nat) : Prop :=
  listeners s = waiting_reg :: map canplay_reg pending
  /\ (unblocked s ++ pending)%list = seq 0 (delayed s)
  /\ cleanup s = match delayed s with
                 | O => None
                 | Datatypes.S k => Some (onCanPlay k)
                 end.

End UseMediaBufferingSpec.

(** ** More sample inputs *)

Module Samples.

Import Constants.
Import CallLambda.

(** The responses of the unary path that occur below: [null], an error
    response with its two strings, and an object with or without a field
    [type] that is not an error response. *)
Inductive UnaryJson :=
  | u_null
  | u_error (message stack : string)
  | u_object (type : option string).

Definition text_error : string :=
  "{" +:+ Fixture.quoted "type" +:+ ":" +:+ Fixture.quoted "error" +:+ ","
  +:+ Fixture.quoted "message" +:+ ":" +:+ Fixture.quoted "boom" +:+ ","
  +:+ Fixture.quoted "stack" +:+ ":" +:+ Fixture.quoted "Error: boom at handler"
  +:+ "}".

Definition text_success : string :=
  "{" +:+ Fixture.quoted "type" +:+ ":" +:+ Fixture.quoted "success" +:+ "}".

(** A parser that knows these texts and the two failure payloads of the
    streaming path, which have no field [type], and rejects everything
    else, in particular the empty text. *)
Definition parse_unary (s : string) : option UnaryJson :=
  if String.eqb s "null" then Some u_null
  else if String.eqb s text_error
       then Some (u_error "boom" "Error: boom at handler")
  else if String.eqb s text_success then Some (u_object (Some "success"))
  else if String.eqb s "{}" then Some (u_object None)
  else if String.eqb s Fixture.text_retry then Some (u_object None)
  else if String.eqb s Fixture.text_fatal then Some (u_object None)
  else None.

Definition unary_externals : Externals := {|
  JSON := UnaryJson;
  JSON_parse := parse_unary;
  TextDecoder_decode := string_of_list_byte;
  messageTypeIdToMessageType := Fixture.typeOfId;
  formatMap := Fixture.formats;
|}.

(** [JSON.stringify] is only applied to the empty text here. *)
Definition unary : @CallLambdaUnary.UnaryExternals unary_externals := {|
  CallLambdaUnary.JSON_stringify := Fixture.quoted;
  CallLambdaUnary.response_shape :=
    fun v : @JSON unary_externals =>
      match v with
      | u_null => CallLambdaUnary.shape_null
      | u_error message stack => CallLambdaUnary.shape_error message stack
      | u_object _ => CallLambdaUnary.shape_other
      end;
  CallLambdaUnary.null_read_message :=
    "Cannot read properties of null (reading 'type')";
  CallLambdaUnary.null_read_stack :=
    "TypeError: Cannot read properties of null (reading 'type')";
|}.

(** A handler that keeps the types of the messages it is given. *)
Definition collecting : OnMessage (list string) :=
  fun m l => (Normal tt, (l ++ [CallLambda.type (message_ m)])%list).

Definition chunk_event (frames : list Frame) : Event :=
  {| PayloadChunk := Some frames; InvokeComplete := None |}.

Definition failed_completion : Event :=
  {| PayloadChunk := None;
     InvokeComplete := Some {| ErrorCode := Some "Unhandled";
                               ErrorDetails := "out of memory" |} |}.

(** The transport rejects the first call at once; the next one is fine. *)
Definition rejected_then_fine : World LambdaPayload :=
  fun n _ =>
    match n with
    | O => RejectsAt 5 (new_Error "socket hang up: aborted")
    | _ => ResolvesAt 20 (Fixture.response [Fixture.frame 5 "{}"] None)
    end.

Definition payload_without_chunk : LambdaPayload :=
  {| Constants.type := renderer; chunk := None; frameRange := Some (0, 9);
     attempt := 1; retriesLeft := 1; version := "4.0.0";
     progressEveryNthFrame := 5 |}.

End Samples.

(** * Properties *)

(** ** The streaming client *)

Module CallLambdaFacts.

Import CallLambda.

Lemma STREAM_STALL_TIMEOUT_value : STREAM_STALL_TIMEOUT = 60000.
Proof. reflexivity. Qed.

Lemma LAMBDA_STREAM_STALL_value :
  LAMBDA_STREAM_STALL = "AWS did not invoke Lambda in 60000ms".
Proof. reflexivity. Qed.

Lemma race_pending {A} (tie : bool) (send : Settle A) :
  pending_at_deadline send ->
  Promise_race tie send STREAM_STALL_TIMEOUT = TimeoutWins.
Proof.
  destruct send as [t a|t e|]; cbn [pending_at_deadline Promise_race]; intros Hlate.
  - replace (t <? STREAM_STALL_TIMEOUT) with false by (symmetry; apply Z.ltb_ge; lia).
    replace (t =? STREAM_STALL_TIMEOUT) with false by (symmetry; apply Z.eqb_neq; lia).
    reflexivity.
  - replace (t <? STREAM_STALL_TIMEOUT) with false by (symmetry; apply Z.ltb_ge; lia).
    replace (t =? STREAM_STALL_TIMEOUT) with false by (symmetry; apply Z.eqb_neq; lia).
    reflexivity.
  - reflexivity.
Qed.

Lemma race_early {A} (tie : bool) (t : Z) (a : A) :
  t < STREAM_STALL_TIMEOUT ->
  Promise_race tie (ResolvesAt t a) STREAM_STALL_TIMEOUT = SendWins (Normal a).
Proof.
  intros Hearly. cbn [Promise_race].
  apply Z.ltb_lt in Hearly. now rewrite Hearly.
Qed.

(** C2. The stall guard: the deadline is 60000 ms; a send promise still
    pending at the deadline makes the call fail with the stall error, the
    timer having fired; an acknowledgment before the deadline makes the
    call return the remote's response with the timer cleared. *)
Theorem stall_guard {A} (tie : bool) (send : Settle A) :
  STREAM_STALL_TIMEOUT = 60000 /\
  (pending_at_deadline send ->
   invokeStreamOrTimeout tie send
   = (Throw (new_Error "AWS did not invoke Lambda in 60000ms"), TimerFired)) /\
  (forall t res, send = ResolvesAt t res -> t < 60000 ->
   invokeStreamOrTimeout tie send = (Normal res, TimerCleared)).
Proof.
  split; [reflexivity|]. split.
  - intros Hpending. unfold invokeStreamOrTimeout.
    now rewrite (race_pending tie send Hpending).
  - intros t res -> Hearly. unfold invokeStreamOrTimeout.
    now rewrite race_early.
Qed.

Lemma stall_guard_witness :
  invokeStreamOrTimeout true (@NeverSettles string)
  = (Throw (new_Error "AWS did not invoke Lambda in 60000ms"), TimerFired)
  /\ invokeStreamOrTimeout true (ResolvesAt 59999 "ack")
     = (Normal "ack", TimerCleared).
Proof.
  split.
  - apply (proj1 (proj2 (stall_guard true (@NeverSettles string)))). exact I.
  - apply (proj2 (proj2 (stall_guard true (ResolvesAt 59999 "ack"))) 59999 "ack").
    + reflexivity.
    + lia.
Defined.

Section Decoding.

Context `{X : Externals}.

Lemma parseJsonOrThrowSource_throws (d : bytes) (ty : string) (e : Error) :
  parseJsonOrThrowSource d ty = Throw e <->
  JSON_parse (TextDecoder_decode d) = None /\
  e = new_Error ("Invalid JSON (" +:+ ty +:+ "): " +:+ TextDecoder_decode d).
Proof.
  unfold parseJsonOrThrowSource.
  destruct (JSON_parse (TextDecoder_decode d)) as [v|]; split.
  - discriminate.
  - intros [Hnone _]. discriminate.
  - intros Heq. injection Heq as <-. now split.
  - intros [_ ->]. reflexivity.
Qed.

Lemma format_is_json_true (ty : string) :
  format_is_json ty = true <-> formatMap ty = Some json.
Proof.
  unfold format_is_json.
  destruct (formatMap ty) as [[|]|]; split; congruence.
Qed.

(** When decoding fails, the caller's handler is not run. *)
Lemma streamerCallback_decode_error {S} (h : OnMessage S) (f : Frame) (s : S)
  (e : Error) :
  innerPayload (messageTypeId f) (data f) = Throw e ->
  streamerCallback h f s = (Throw e, s).
Proof. intros Hthrow. unfold streamerCallback. now rewrite Hthrow. Qed.

Lemma innerPayload_cases (id : Z) (d : bytes) :
  let ty := messageTypeIdToMessageType id in
  (formatMap ty = Some json /\ JSON_parse (TextDecoder_decode d) = None
   /\ innerPayload id d
      = Throw (new_Error ("Invalid JSON (" +:+ ty +:+ "): " +:+ TextDecoder_decode d)))
  \/ (formatMap ty = Some json
      /\ exists v, JSON_parse (TextDecoder_decode d) = Some v
                   /\ innerPayload id d = Normal (PayloadJson v))
  \/ (formatMap ty <> Some json /\ innerPayload id d = Normal (PayloadBytes d)).
Proof.
  intros ty. unfold innerPayload. fold ty.
  destruct (format_is_json ty) eqn:Hfmt.
  - apply format_is_json_true in Hfmt.
    unfold parseJsonOrThrowSource.
    destruct (JSON_parse (TextDecoder_decode d)) as [v|].
    + right. left. split; [exact Hfmt|]. now exists v.
    + left. now repeat split.
  - right. right. split; [|reflexivity].
    intros Hj. apply format_is_json_true in Hj. congruence.
Qed.

(** C4. In the callback given to the streamer, decoding a frame raises an
    error exactly when the declared format of its type is [json] and its
    bytes do not parse; the error carries the type and the raw text, and
    the caller's handler is not run.  A frame whose type has the format
    [binary] raises no such error: the handler is given its bytes
    unchanged. *)
Theorem malformed_payload_iff (f : Frame) :
  let ty := messageTypeIdToMessageType (messageTypeId f) in
  let raw := TextDecoder_decode (data f) in
  ((exists e, innerPayload (messageTypeId f) (data f) = Throw e) <->
   formatMap ty = Some json /\ JSON_parse raw = None)
  /\ (forall e, innerPayload (messageTypeId f) (data f) = Throw e ->
      e = new_Error ("Invalid JSON (" +:+ ty +:+ "): " +:+ raw)
      /\ forall S (h : OnMessage S) (s : S), streamerCallback h f s = (Throw e, s))
  /\ (formatMap ty = Some binary ->
      innerPayload (messageTypeId f) (data f) = Normal (PayloadBytes (data f))
      /\ forall S (h : OnMessage S) (s : S),
           streamerCallback h f s
           = h {| successType := status f;
                  message_ := {| type := ty; payload := PayloadBytes (data f) |} |} s).
Proof.
  intros ty raw.
  destruct (innerPayload_cases (messageTypeId f) (data f))
    as [(Hfmt & Hnone & Hthrow)|[(Hfmt & v & Hsome & Hok)|(Hfmt & Hok)]];
    fold ty raw in Hfmt |- *.
  - fold ty raw in Hnone, Hthrow. split; [split|split].
    + intros _. now split.
    + intros _. eexists. exact Hthrow.
    + intros e He. rewrite Hthrow in He. injection He as <-.
      split; [reflexivity|]. intros S h s.
      now apply streamerCallback_decode_error.
    + intros Hbin. congruence.
  - fold raw in Hsome. split; [split|split].
    + intros [e He]. congruence.
    + intros [_ Hnone]. congruence.
    + intros e He. congruence.
    + intros Hbin. congruence.
  - split; [split|split].
    + intros [e He]. congruence.
    + intros [Hj _]. contradiction.
    + intros e He. congruence.
    + intros _. split; [exact Hok|].
      intros S h s. unfold streamerCallback. now rewrite Hok.
Qed.

End Decoding.

Lemma malformed_payload_iff_witness :
  (exists e, innerPayload 1 (list_byte_of_string "{") = Throw e)
  /\ streamerCallback Fixture.counting (Fixture.frame 1 "{") 0%nat
     = (Throw (new_Error "Invalid JSON (frames-rendered): {"), 0%nat)
  /\ streamerCallback Fixture.counting (Fixture.frame 3 "{") 0%nat
     = (Normal tt, 1%nat).
Proof.
  pose proof (malformed_payload_iff (Fixture.frame 1 "{")) as (Hiff & Herror & _).
  pose proof (malformed_payload_iff (Fixture.frame 3 "{")) as (_ & _ & Hbinary).
  assert (Hthrow : exists e, innerPayload 1 (list_byte_of_string "{") = Throw e).
  { apply (proj2 Hiff). split; reflexivity. }
  split; [exact Hthrow|]. split.
  - destruct Hthrow as [e He].
    destruct (Herror e He) as [-> Hcallback].
    exact (Hcallback nat Fixture.counting 0%nat).
  - destruct (Hbinary eq_refl) as [_ Hcallback].
    rewrite (Hcallback nat Fixture.counting 0%nat). reflexivity.
Defined.

Section Retry.

Context `{X : Externals} {S Req : Type}.
Variables (tie : bool) (w : World Req) (options : Options Req) (h : OnMessage S).

Lemma notRetryable_false (err : Error) :
  notRetryable err = false <->
  includes (message err) INVALID_JSON_MESSAGE = true
  \/ includes (message err) LAMBDA_STREAM_STALL = true
  \/ includes (message err) "aborted" = true.
Proof.
  unfold notRetryable.
  destruct (includes (message err) INVALID_JSON_MESSAGE),
           (includes (message err) LAMBDA_STREAM_STALL),
           (includes (message err) "aborted"); cbn; intuition congruence.
Qed.

(** One activation of [callLambdaWithStreaming]: a failed attempt is
    re-issued exactly when the counter is not zero and the message
    contains one of the three texts. *)
Lemma callLambdaWithStreaming_step (fuel : nat) (r : Z) (n : nat) (s : S) :
  callLambdaWithStreaming (Datatypes.S fuel) tie w options h r n s =
  match callLambdaWithStreamingWithoutRetry tie options h
          (w n (payload_ options)) s with
  | (Normal _, s') => Some (Normal tt, s', Datatypes.S n)
  | (Throw err, s') =>
      if negb (r =? 0) && negb (notRetryable err)
      then callLambdaWithStreaming fuel tie w options h (r - 1) (Datatypes.S n) s'
      else Some (Throw err, s', Datatypes.S n)
  end.
Proof.
  cbn [callLambdaWithStreaming].
  destruct (callLambdaWithStreamingWithoutRetry tie options h
              (w n (payload_ options)) s) as [[u|err] s']; [reflexivity|].
  destruct (r =? 0); [reflexivity|].
  destruct (notRetryable err); reflexivity.
Qed.

(** With a counter that is not negative the client returns, after at most
    [r + 1] invocations. *)
Lemma callLambdaWithStreaming_total (fuel : nat) :
  forall (r : Z) (n : nat) (s : S),
    0 <= r -> (Z.to_nat r < fuel)%nat ->
    exists c s' n',
      callLambdaWithStreaming fuel tie w options h r n s = Some (c, s', n')
      /\ (n < n' <= n + Z.to_nat r + 1)%nat.
Proof.
  induction fuel as [|fuel IH]; intros r n s Hr Hfuel; [lia|].
  rewrite callLambdaWithStreaming_step.
  destruct (callLambdaWithStreamingWithoutRetry tie options h
              (w n (payload_ options)) s) as [[u|err] s'].
  - eexists _, _, _. split; [reflexivity|lia].
  - destruct (r =? 0) eqn:Hzero; cbn [negb andb].
    + eexists _, _, _. split; [reflexivity|lia].
    + destruct (notRetryable err); cbn [negb].
      * eexists _, _, _. split; [reflexivity|lia].
      * apply Z.eqb_neq in Hzero.
        destruct (IH (r - 1) (Datatypes.S n) s') as (c & sf & n' & Hrun & Hn);
          [lia|lia|].
        exists c, sf, n'. split; [exact Hrun|].
        replace (Z.to_nat r) with (Datatypes.S (Z.to_nat (r - 1))) by lia. lia.
Qed.

(** A property of the caller's state that the handler keeps on every
    message the remote side can deliver is kept by the whole call. *)
Section Invariant.

Variable P : S -> Prop.
Hypothesis handler_keeps :
  forall m s, delivers w (payload_ options) m -> P s -> P (snd (h m s)).

Lemma onData_keeps (frames : list Frame) :
  forall s,
    (forall f m, In f frames -> decoded f = Some m -> forall s0, P s0 -> P (snd (h m s0))) ->
    P s -> P (snd (onData h frames s)).
Proof.
  induction frames as [|f rest IH]; intros s Hframes Hs; [exact Hs|].
  cbn [onData]. unfold streamerCallback.
  pose proof (Hframes f) as Hf. unfold decoded in Hf.
  destruct (innerPayload (messageTypeId f) (data f)) as [p|e]; [|exact Hs].
  specialize (Hf _ (or_introl eq_refl) eq_refl s Hs).
  destruct (h _ s) as [[u|e] s1]; cbn [snd] in *; [|exact Hf].
  apply IH; [|exact Hf].
  intros f0 m Hin. apply Hframes. now right.
Qed.

Lemma consumeEvents_keeps (rg fn rid : string) (events : list Event) :
  forall s,
    (forall f m, In f (flat_map (fun ev => default [] (PayloadChunk ev)) events) ->
                 decoded f = Some m -> forall s0, P s0 -> P (snd (h m s0))) ->
    P s -> P (snd (consumeEvents h rg fn rid events s)).
Proof.
  induction events as [|ev rest IH]; intros s Hframes Hs; [exact Hs|].
  cbn [consumeEvents].
  assert (Hdata : P (snd match PayloadChunk ev with
                         | Some frames => onData h frames s
                         | None => (Normal tt, s)
                         end)).
  { destruct (PayloadChunk ev) as [frames|] eqn:Hchunk; [|exact Hs].
    apply onData_keeps; [|exact Hs].
    intros f m Hin. apply Hframes. cbn [flat_map]. apply in_or_app. left.
    now rewrite Hchunk. }
  destruct (match PayloadChunk ev with
            | Some frames => onData h frames s
            | None => (Normal tt, s)
            end) as [[u|e] s1]; cbn [snd] in *; [|exact Hdata].
  destruct (InvokeComplete ev ≫= invokeCompleteError rg fn rid); [exact Hdata|].
  apply IH; [|exact Hdata].
  intros f m Hin. apply Hframes. cbn [flat_map]. apply in_or_app. now right.
Qed.

Lemma withoutRetry_keeps (n : nat) (s : S) :
  P s ->
  P (snd (callLambdaWithStreamingWithoutRetry tie options h
            (w n (payload_ options)) s)).
Proof.
  intros Hs. unfold callLambdaWithStreamingWithoutRetry.
  destruct (invokeStreamOrTimeout tie (w n (payload_ options))) as [[res|e] tm] eqn:Hinvoke;
    cbn [fst]; [|exact Hs].
  assert (Hsend : exists t, w n (payload_ options) = ResolvesAt t res).
  { unfold invokeStreamOrTimeout, Promise_race in Hinvoke.
    destruct (w n (payload_ options)) as [t a|t e|]; [|..].
    - destruct ((t <? STREAM_STALL_TIMEOUT) || (t =? STREAM_STALL_TIMEOUT) && negb tie);
        [|discriminate].
      injection Hinvoke as -> _. now exists t.
    - destruct ((t <? STREAM_STALL_TIMEOUT) || (t =? STREAM_STALL_TIMEOUT) && negb tie);
        discriminate.
    - discriminate. }
  destruct Hsend as [t Hsend].
  assert (Hevents : P (snd (consumeEvents h (region options) (functionName options)
                              (requestId res) (EventStream res) s))).
  { apply consumeEvents_keeps; [|exact Hs].
    intros f m Hin Hdec s0. apply handler_keeps.
    exists n, t, res, f. auto. }
  destruct (consumeEvents h (region options) (functionName options)
              (requestId res) (EventStream res) s) as [[u|e] s1];
    cbn [snd] in *; [|exact Hevents].
  destruct (streamError res); exact Hevents.
Qed.

Lemma callLambdaWithStreaming_keeps (fuel : nat) :
  forall (r : Z) (n : nat) (s : S) c s' n',
    P s ->
    callLambdaWithStreaming fuel tie w options h r n s = Some (c, s', n') ->
    P s'.
Proof.
  induction fuel as [|fuel IH]; intros r n s c s' n' Hs Hrun; [discriminate|].
  rewrite callLambdaWithStreaming_step in Hrun.
  pose proof (withoutRetry_keeps n s Hs) as Hkeep.
  destruct (callLambdaWithStreamingWithoutRetry tie options h
              (w n (payload_ options)) s) as [[u|err] s1]; cbn [snd] in Hkeep.
  - now injection Hrun as _ <- _.
  - destruct (negb (r =? 0) && negb (notRetryable err)).
    + eapply IH; eassumption.
    + now injection Hrun as _ <- _.
Qed.

End Invariant.

End Retry.

(** C1. A [frames-rendered] frame cut short makes the first invocation
    fail with the error of [parseJsonOrThrowSource]; with two retries
    left the client issues no second invocation and rethrows it, although
    the second invocation would have succeeded. *)
Theorem parse_failure_not_retried :
  callLambdaWithStreaming 3 true Fixture.truncated_then_fine Fixture.options0
    Fixture.counting 2 0%nat 0%nat
  = Some (Throw (new_Error "Invalid JSON (frames-rendered): {"), 0%nat, 1%nat)
  /\ notRetryable (new_Error "Invalid JSON (frames-rendered): {") = true
  /\ callLambdaWithStreaming 3 true Fixture.truncated_then_fine Fixture.options0
       Fixture.counting 2 1%nat 0%nat
     = Some (Normal tt, 2%nat, 2%nat).
Proof. repeat split; vm_compute; reflexivity. Qed.

End CallLambdaFacts.

(** ** The chunk orchestrator *)

Module StreamRendererFacts.

Import Constants.
Import CallLambda.
Import StreamRenderer.

Section Handler.

Context `{V : PayloadView}.
Variable join : string -> string -> string.

Lemma resolved_call_progress (c : ProgressCall) (s : State) :
  resolved (call_progress c s) = resolved s.
Proof. reflexivity. Qed.

Lemma resolve_pending (r : StreamRendererResponse) (s : State) :
  resolved s = None -> resolved (resolve r s) = Some r.
Proof. intros Hpending. unfold resolve. now rewrite Hpending. Qed.

Lemma resolve_settled (r r0 : StreamRendererResponse) (s : State) :
  resolved s = Some r0 -> resolve r s = s.
Proof. intros Hsettled. unfold resolve. now rewrite Hsettled. Qed.

(** The handler dispatches on the type; the case analysis the proofs
    below share. *)
Ltac handler_cases ty :=
  unfold receivedStreamingPayload; cbn zeta;
  destruct (String.eqb ty "lambda-invoked"); [|
  destruct (String.eqb ty "frames-rendered"); [|
  destruct (String.eqb ty "video-chunk-rendered"); [|
  destruct (String.eqb ty "audio-chunk-rendered"); [|
  destruct (String.eqb ty "chunk-complete"); [|
  destruct (String.eqb ty "error-occurred") eqn:Herr ]]]]].

(** A settled promise stays as it is, whatever message follows. *)
Lemma handler_keeps_settled (p : LambdaPayload) (outdir : string)
  (m : StreamingMessage) (s : State) (r : StreamRendererResponse) :
  resolved s = Some r ->
  resolved (snd (receivedStreamingPayload join p outdir m s)) = Some r.
Proof.
  intros Hsettled.
  handler_cases (CallLambda.type (message_ m)); cbn [snd]; try exact Hsettled.
  erewrite resolve_settled; [exact Hsettled|]. exact Hsettled.
Qed.

(** Only an [error-occurred] message settles the promise. *)
Lemma handler_keeps_pending (p : LambdaPayload) (outdir : string)
  (m : StreamingMessage) (s : State) :
  CallLambda.type (message_ m) <> "error-occurred" ->
  resolved s = None ->
  resolved (snd (receivedStreamingPayload join p outdir m s)) = None.
Proof.
  intros Hty Hpending.
  handler_cases (CallLambda.type (message_ m)); cbn [snd]; try exact Hpending.
  apply String.eqb_eq in Herr. contradiction.
Qed.

(** What the handler does with an [error-occurred] message. *)
Lemma handler_error_occurred (p : LambdaPayload) (outdir : string)
  (m : StreamingMessage) (s : State) :
  CallLambda.type (message_ m) = "error-occurred" ->
  receivedStreamingPayload join p outdir m s
  = (Normal tt,
     resolve (response_error (payload_error (payload (message_ m)))
                             (payload_shouldRetry (payload (message_ m))))
       (call_progress (setFrames (chunk p) 0 0)
          (call_progress
             (addErrorWithoutUpload (payload_errorInfo (payload (message_ m))))
             s))).
Proof.
  intros Hty. unfold receivedStreamingPayload. cbn zeta. rewrite Hty. reflexivity.
Qed.

(** C6. An [error-occurred] message that arrives while the attempt is
    unresolved resolves it as a failure carrying the message's error text
    and [shouldRetry] flag, and no message handled afterwards changes that
    resolution. *)
Theorem error_occurred_resolves (p : LambdaPayload) (outdir : string)
  (m : StreamingMessage) (s : State) :
  CallLambda.type (message_ m) = "error-occurred" ->
  resolved s = None ->
  let s' := snd (receivedStreamingPayload join p outdir m s) in
  let r := response_error (payload_error (payload (message_ m)))
                          (payload_shouldRetry (payload (message_ m))) in
  fst (receivedStreamingPayload join p outdir m s) = Normal tt
  /\ resolved s' = Some r
  /\ forall later,
       resolved
         (fold_left (fun acc m' => snd (receivedStreamingPayload join p outdir m' acc))
                    later s') = Some r.
Proof.
  intros Hty Hpending s' r.
  pose proof (handler_error_occurred p outdir m s Hty) as Hstep. fold r in Hstep.
  assert (Hs' : resolved s' = Some r).
  { subst s'. rewrite Hstep. cbn [snd]. now apply resolve_pending. }
  split; [now rewrite Hstep|]. split; [exact Hs'|].
  intros later. revert Hs'. generalize s'. clear.
  induction later as [|m' rest IH]; intros s0 Hs0; [exact Hs0|].
  cbn [fold_left]. apply IH. now apply handler_keeps_settled.
Qed.

End Handler.

Lemma error_occurred_resolves_witness :
  let m := {| successType := success;
              message_ := {| CallLambda.type := "error-occurred";
                             payload := PayloadJson (Fixture.mkTestJson 0 0 0 "boom" true) |} |} in
  resolved (snd (receivedStreamingPayload Fixture.join Fixture.payload0 "/tmp/out" m
                   Fixture.state0))
  = Some (response_error "boom" true).
Proof.
  intros m.
  exact (proj1 (proj2 (error_occurred_resolves Fixture.join Fixture.payload0
                         "/tmp/out" m Fixture.state0 eq_refl eq_refl))).
Defined.

(** C6, as stated, fails: after the [error-occurred] frame the stream
    still delivers a video chunk and a progress message, and the handler
    writes the file, records its path and updates the progress. *)
Lemma messages_after_error_are_processed :
  exists s n,
    streamRenderer Fixture.join true Fixture.error_then_video "eu-central-1"
      clientFuel Fixture.payload0 "fn" "/tmp/out" 0%nat Fixture.state0
    = Some (Returned (response_error "boom" false), s, n)
    /\ files s = ["/tmp/out/chunk:00000007:video"]
    /\ fs s !! "/tmp/out/chunk:00000007:video"
       = Some (PayloadBytes (list_byte_of_string "VIDEO"))
    /\ progressCalls s
       = [addErrorWithoutUpload tt; setFrames (Some 7) 0 0; setFrames (Some 7) 0 0].
Proof.
  eexists _, _. split; [vm_compute; reflexivity|].
  repeat split; vm_compute; reflexivity.
Qed.

Section Orchestrator.

Context `{V : PayloadView}.
Variable join : string -> string -> string.
Variable tie : bool.
Variable w : World LambdaPayload.
Variable currentRegion : string.
Variable Date_now : Z -> Z.

Local Abbreviation run :=
  (streamRendererFunctionWithRetry join tie w currentRegion Date_now).
Local Abbreviation attempt_of :=
  (streamRenderer join tie w currentRegion clientFuel).


(** While no [error-occurred] message can arrive, the promise of the
    attempt is still pending when the client ends. *)
Lemma pending_without_error_occurred (fuel : nat) (p : LambdaPayload)
  (fn outdir : string) (r : Z) (n : nat) (s : State) c s' n' :
  (forall m, delivers w p m -> CallLambda.type (message_ m) <> "error-occurred") ->
  callLambdaWithStreaming fuel tie w
    {| functionName := fn; payload_ := p; region := currentRegion |}
    (receivedStreamingPayload join p outdir) r n (new_promise s)
  = Some (c, s', n') ->
  resolved s' = None.
Proof.
  intros Hnone Hrun.
  refine (CallLambdaFacts.callLambdaWithStreaming_keeps tie w _ _
            (fun st => resolved st = None) _ fuel r n (new_promise s) c s' n'
            eq_refl Hrun).
  intros m st Hdeliv Hpending. cbn [payload_] in Hdeliv.
  apply handler_keeps_pending; [now apply Hnone|exact Hpending].
Qed.

(** C9. When the client ends with an error while the attempt is still
    unresolved (no [error-occurred] message has resolved it), the attempt
    resolves as a failure with [shouldRetry = false], and the orchestrator
    throws it after this single attempt. *)
Theorem network_failure_is_fatal (fuel : nat) (p : LambdaPayload)
  (fn outdir : string) (n : nat) (s : State) (err : Error) (s' : State)
  (n' : nat) :
  is_renderer p = true ->
  callLambdaWithStreaming clientFuel tie w
    {| functionName := fn; payload_ := p; region := currentRegion |}
    (receivedStreamingPayload join p outdir) 2 n (new_promise s)
  = Some (Throw err, s', n') ->
  resolved s' = None ->
  let failed := resolve (response_error (stack err) false) s' in
  attempt_of p fn outdir n s
  = Some (Returned (response_error (stack err) false), failed, n')
  /\ run (Datatypes.S fuel) p fn outdir n s
     = Some (ThrewString (stack err), failed, n', [p]).
Proof.
  intros Hrenderer Hclient Hpending failed.
  assert (Hattempt : attempt_of p fn outdir n s
                     = Some (Returned (response_error (stack err) false), failed, n')).
  { unfold streamRenderer. rewrite Hrenderer. cbn [negb].
    rewrite Hclient. fold failed.
    subst failed. now rewrite (resolve_pending _ _ Hpending). }
  split; [exact Hattempt|].
  cbn [streamRendererFunctionWithRetry].
  rewrite Hrenderer. cbn [negb]. rewrite Hattempt. reflexivity.
Qed.

End Orchestrator.

Lemma network_failure_is_fatal_witness :
  exists s,
    streamRendererFunctionWithRetry Fixture.join true Fixture.never_acknowledged
      "eu-central-1" Fixture.clock 1 Fixture.payload0 "fn" "/tmp/out" 0%nat
      Fixture.state0
    = Some (ThrewString "Error: AWS did not invoke Lambda in 60000ms", s, 3%nat,
            [Fixture.payload0]).
Proof.
  eexists.
  refine (proj2 (network_failure_is_fatal Fixture.join true
                   Fixture.never_acknowledged "eu-central-1" Fixture.clock
                   0 Fixture.payload0 "fn" "/tmp/out" 0%nat Fixture.state0
                   (new_Error "AWS did not invoke Lambda in 60000ms") _ 3%nat
                   eq_refl _ _)).
  - vm_compute. reflexivity.
  - reflexivity.
Defined.

(** C9, as stated, fails: the client ends with the error of an
    [Unhandled] completion, which it does not retry, but an
    [error-occurred] message with [shouldRetry = true] had resolved the
    attempt before, and the orchestrator retries the chunk. *)
Lemma network_failure_after_error_occurred_is_retried :
  (exists err s,
     callLambdaWithStreaming StreamRenderer.clientFuel true
       Fixture.retry_then_unhandled
       {| functionName := "fn"; payload_ := Fixture.payload0;
          region := "eu-central-1" |}
       (receivedStreamingPayload Fixture.join Fixture.payload0 "/tmp/out")
       2 0%nat (new_promise Fixture.state0)
     = Some (Throw err, s, 1%nat))
  /\ (exists s,
        streamRenderer Fixture.join true Fixture.retry_then_unhandled
          "eu-central-1" clientFuel Fixture.payload0 "fn" "/tmp/out" 0%nat
          Fixture.state0
        = Some (Returned (response_error "boom" true), s, 1%nat))
  /\ (exists s n,
        streamRendererFunctionWithRetry Fixture.join true
          Fixture.retry_then_unhandled "eu-central-1" Fixture.clock 5
          Fixture.payload0 "fn" "/tmp/out" 0%nat Fixture.state0
        = Some (Returned tt, s, n,
                [Fixture.payload0; with_attempt Fixture.payload0 2 0])).
Proof.
  split; [|split].
  - eexists _, _. vm_compute. reflexivity.
  - eexists. vm_compute. reflexivity.
  - eexists _, _. vm_compute. reflexivity.
Qed.

End StreamRendererFacts.

(** ** The worker handler *)

Module RendererFacts.

Import Constants.
Import Renderer.

#[local] Open Scope list_scope.

Section Worker.

Context `{WX : WorkerExternals}.

Lemma quiet_silent {A} (m : M A) :
  (forall s, emitted (snd (m s)) = emitted s) -> quiet m.
Proof.
  intros Hsame s. exists []. rewrite Hsame. split; [now rewrite app_nil_r|constructor].
Qed.

Lemma quiet_ret {A} (a : A) : quiet (ret a).
Proof. now apply quiet_silent. Qed.

Lemma quiet_throw {A} (e : Error) : quiet (throw e : M A).
Proof. now apply quiet_silent. Qed.

Lemma quiet_await {A} (c : completion A) : quiet (await c).
Proof. now apply quiet_silent. Qed.

Lemma quiet_issue_rm (path : string) : quiet (issue_rm path).
Proof. now apply quiet_silent. Qed.

Lemma quiet_onStream (m : WorkerMessage) : not_error m -> quiet (onStream m).
Proof.
  intros Hm s. exists [m]. split; [reflexivity|]. now constructor.
Qed.

Lemma quiet_bind {A B} (m : M A) (k : A -> M B) :
  quiet m -> (forall a, quiet (k a)) -> quiet (m ≫= k).
Proof.
  intros Hm Hk s. unfold mbind, M_bind, bind.
  destruct (Hm s) as (extra1 & Heq1 & Hok1).
  destruct (m s) as [[a|e] s1]; cbn [snd] in *.
  - destruct (Hk a s1) as (extra2 & Heq2 & Hok2).
    exists (extra1 ++ extra2). rewrite Heq2, Heq1, app_assoc.
    split; [reflexivity|]. apply Forall_app. now split.
  - now exists extra1.
Qed.

Lemma quiet_when_some {A} (o : option A) (f : A -> M (list (completion unit))) :
  (forall a, quiet (f a)) -> quiet (when_some o f).
Proof. intros Hf. destruct o; [apply Hf|apply quiet_ret]. Qed.

Lemma quiet_run_callbacks (params : LambdaPayload) (env : RenderEnv)
  (cbs : list RenderCallback) : quiet (run_callbacks params env cbs).
Proof.
  induction cbs as [|cb rest IH]; cbn [run_callbacks]; [apply quiet_ret|].
  apply quiet_bind; [|intros _; exact IH].
  destruct cb as [|r e]; cbn [run_callback].
  - now apply quiet_onStream.
  - unfold onProgress.
    match goal with |- quiet (if ?b then _ else _) => destruct b end;
      [now apply quiet_onStream|apply quiet_ret].
Qed.

Lemma quiet_streamAndCleanUp (env : RenderEnv) (c : Z) :
  quiet (streamAndCleanUp env c).
Proof.
  unfold streamAndCleanUp.
  apply quiet_bind.
  { apply quiet_when_some. intros l.
    apply quiet_bind; [apply quiet_await|intros content].
    apply quiet_bind; [now apply quiet_onStream|intros _; apply quiet_ret]. }
  intros audioChunkRenderedPromise.
  apply quiet_bind.
  { apply quiet_bind; [apply quiet_await|intros videoPayload].
    apply quiet_bind; [|intros _; apply quiet_ret].
    apply quiet_onStream. now destruct (isAudioCodec env). }
  intros videoChunkRenderedPromise.
  apply quiet_bind; [now apply quiet_onStream|intros _].
  apply quiet_bind; [apply quiet_issue_rm|intros _].
  apply quiet_bind.
  { apply quiet_when_some. intros l.
    apply quiet_bind; [apply quiet_issue_rm|intros _; apply quiet_ret]. }
  intros rmAudio.
  apply quiet_bind; [apply quiet_issue_rm|intros _; apply quiet_await].
Qed.

(** [renderHandler] itself never sends [error-occurred]. *)
Lemma quiet_renderHandler (params : LambdaPayload) (env : RenderEnv) :
  quiet (renderHandler params env).
Proof.
  unfold renderHandler.
  destruct (negb (is_renderer params)); [apply quiet_throw|].
  destruct (negb (String.eqb (version params) (VERSION env))); [apply quiet_throw|].
  apply quiet_bind; [apply quiet_await|intros _].
  destruct (chunk params) as [c|]; [|apply quiet_throw].
  destruct (frameRange params); [|apply quiet_throw].
  assert (Hrest : quiet (await (resolvedProps env) ;;
                         await (inputProps env) ;;
                         internalRenderMedia params env ;;
                         streamAndCleanUp env c)).
  { apply quiet_bind; [apply quiet_await|intros _].
    apply quiet_bind; [apply quiet_await|intros _].
    apply quiet_bind; [|intros _; apply quiet_streamAndCleanUp].
    unfold internalRenderMedia.
    apply quiet_bind; [apply quiet_run_callbacks|intros _; apply quiet_await]. }
  destruct (willRenderAudioEval env); [exact Hrest|exact Hrest|apply quiet_throw].
Qed.

Lemma shouldRetry_of_true (params : LambdaPayload) (err : Error) :
  shouldRetry_of params err = true <->
  isFlakyError err = true /\ 0 < retriesLeft params
  /\ name err <> "CancelledError".
Proof.
  unfold shouldRetry_of.
  rewrite !andb_true_iff, negb_true_iff, Z.ltb_lt.
  split.
  - intros [[Hflaky Hleft] Hname]. repeat split; try assumption.
    intros Heq. apply String.eqb_eq in Heq. congruence.
  - intros (Hflaky & Hleft & Hname). repeat split; try assumption.
    apply String.eqb_neq. exact Hname.
Qed.

(** C5. Outside the test environment, a failure of the handler's work
    is classified as retryable exactly when it is flaky, retries are left
    and it is not a cancellation; exactly one [error-occurred] message,
    carrying that flag, is handed to [onStream], as the last message, and
    the error is rethrown. *)
Theorem failure_is_reported_once (NODE_ENV : option string)
  (params : LambdaPayload) (env : RenderEnv) (err : Error) (s1 : WState) :
  NODE_ENV <> Some "test" ->
  is_renderer params = true ->
  renderHandler params env initial = (Throw err, s1) ->
  let sr := shouldRetry_of params err in
  (sr = true <->
   isFlakyError err = true /\ 0 < retriesLeft params
   /\ name err <> "CancelledError")
  /\ (exists info,
        errorOccurred params err = error_occurred (stack err) sr info
        /\ ei_willRetry info = sr /\ ei_isFatal info = negb sr)
  /\ rendererHandler NODE_ENV params env initial
     = (Throw err,
        {| emitted := emitted s1 ++ [errorOccurred params err];
           rmIssued := rmIssued s1; finalized := true |})
  /\ Forall not_error (emitted s1).
Proof.
  intros Henv Hrenderer Hfail sr.
  split; [apply shouldRetry_of_true|].
  split; [eexists; repeat split|].
  split.
  - unfold rendererHandler. rewrite Hrenderer. cbn [negb]. rewrite Hfail.
    rewrite bool_decide_eq_false_2 by exact Henv. reflexivity.
  - destruct (quiet_renderHandler params env initial) as (extra & Heq & Hok).
    rewrite Hfail in Heq. cbn [snd initial emitted app] in Heq.
    now rewrite Heq.
Qed.

Lemma run_callbacks_normal (params : LambdaPayload) (env : RenderEnv)
  (cbs : list RenderCallback) :
  forall s, exists s',
    run_callbacks params env cbs s = (Normal tt, s')
    /\ rmIssued s' = rmIssued s /\ finalized s' = finalized s.
Proof.
  induction cbs as [|cb rest IH]; intros s; cbn [run_callbacks].
  - now exists s.
  - unfold mbind, M_bind, bind.
    assert (Hcb : exists s1, run_callback params env cb s = (Normal tt, s1)
                             /\ rmIssued s1 = rmIssued s
                             /\ finalized s1 = finalized s).
    { destruct cb as [|r e]; cbn [run_callback].
      - eexists. split; [reflexivity|now split].
      - unfold onProgress.
        match goal with |- context [if ?b then _ else _] => destruct b end;
          eexists; (split; [reflexivity|now split]). }
    destruct Hcb as (s1 & -> & Hrm1 & Hfin1).
    destruct (IH s1) as (s2 & -> & Hrm2 & Hfin2).
    exists s2. split; [reflexivity|]. split; congruence.
Qed.

(** What the removals of lines 387-391 are issued on. *)
Lemma streamAndCleanUp_removals (env : RenderEnv) (c : Z) (s : WState) :
  artifacts_readable env c ->
  rmIssued (snd (streamAndCleanUp env c s))
  = rmIssued s ++ [videoOutputLocation env c]
    ++ option_list (audioOutputLocation env c) ++ [outputPath env].
Proof.
  intros [[v Hvideo] Haudio].
  unfold streamAndCleanUp, mbind, M_bind, bind.
  destruct (audioOutputLocation env c) as [l|] eqn:Hloc; cbn [when_some option_list].
  - destruct (Haudio l eq_refl) as [a Ha].
    unfold mbind, M_bind, bind, await. rewrite Ha, Hvideo.
    cbn. now rewrite <- !app_assoc.
  - unfold await, ret. rewrite Hvideo. cbn. now rewrite <- !app_assoc.
Qed.

(** [Promise.all] fulfils exactly when every promise does, and rejects
    with the rejection of one of them. *)
Lemma Promise_all_fulfils (ps : list (completion unit)) :
  Promise_all ps = Normal tt <-> forall p, In p ps -> p = Normal tt.
Proof.
  induction ps as [|[[]|e] ps IH]; cbn [Promise_all In].
  - split; [intros _ p []|reflexivity].
  - rewrite IH. split.
    + intros Hall p [<-|Hin]; [reflexivity|now apply Hall].
    + intros Hall p Hin. apply Hall. now right.
  - split; [discriminate|]. intros Hall.
    specialize (Hall (Throw e) (or_introl eq_refl)). discriminate.
Qed.

Lemma Promise_all_rejects (ps : list (completion unit)) (e : Error) :
  Promise_all ps = Throw e -> In (Throw e) ps.
Proof.
  induction ps as [|[[]|e'] ps IH]; cbn [Promise_all In].
  - discriminate.
  - intros Hall. right. now apply IH.
  - intros [= ->]. now left.
Qed.

(** When every send succeeds the stage ends as awaiting the removals
    ends: normally if all of them succeed, with the first rejection
    otherwise. *)
Lemma streamAndCleanUp_awaits_removals (env : RenderEnv) (c : Z) (s : WState) :
  artifacts_readable env c ->
  (forall m, sent env m = Normal tt) ->
  fst (streamAndCleanUp env c s)
  = Promise_all
      (map (rm env)
         ([videoOutputLocation env c] ++ option_list (audioOutputLocation env c)
          ++ [outputPath env])).
Proof.
  intros [[v Hvideo] Haudio] Hsent.
  unfold streamAndCleanUp, mbind, M_bind, bind.
  destruct (audioOutputLocation env c) as [l|] eqn:Hloc; cbn [when_some option_list].
  - destruct (Haudio l eq_refl) as [a Ha].
    unfold mbind, M_bind, bind, await. rewrite Ha, Hvideo.
    cbn [onStream issue_rm ret fst snd app map]. rewrite !Hsent. reflexivity.
  - unfold await, ret. rewrite Hvideo.
    cbn [onStream issue_rm fst snd app map]. rewrite !Hsent. reflexivity.
Qed.

(** C7. When rendering completes and the artifacts can be read, the
    removal of the video output, of the audio output if there is one, and
    of the [remotion-render-] scratch directory, and of nothing else, has
    been issued when the handler ends, however the sends and the removals
    settle.  When the sends succeed the handler awaits these removals: it
    returns exactly when all of them succeed, and what it throws otherwise
    is the rejection of one of them. *)
Theorem scratch_removed_after_rendering (NODE_ENV : option string)
  (params : LambdaPayload) (env : RenderEnv) (c : Z) :
  rendering_completes params env c ->
  artifacts_readable env c ->
  let final := snd (rendererHandler NODE_ENV params env initial) in
  let removed :=
    [videoOutputLocation env c] ++ option_list (audioOutputLocation env c)
    ++ [outputPath env] in
  rmIssued final = removed
  /\ finalized final = true
  /\ ((forall m, sent env m = Normal tt) ->
      (fst (rendererHandler NODE_ENV params env initial) = Normal tt <->
       forall l, In l removed -> rm env l = Normal tt)
      /\ (forall e,
            fst (rendererHandler NODE_ENV params env initial) = Throw e ->
            exists l, In l removed /\ rm env l = Throw e)).
Proof.
  intros (Hrenderer & Hversion & Hbrowser & Hchunk & [range Hrange] & Haudio
          & Hresolved & Hinput & Hrender) Hread final removed.
  assert (Hbody : exists s0,
             rmIssued s0 = [] /\
             renderHandler params env initial = streamAndCleanUp env c s0).
  { unfold renderHandler. rewrite Hrenderer, Hversion, String.eqb_refl.
    cbn [negb]. unfold mbind at 1, M_bind at 1, bind at 1, await at 1.
    rewrite Hbrowser, Hchunk, Hrange.
    destruct (run_callbacks_normal params env (renderCallbacks env) initial)
      as (s0 & Hcbs & Hrm & _).
    exists s0. split; [exact Hrm|].
    assert (Hrest : (await (resolvedProps env) ;;
                     await (inputProps env) ;;
                     internalRenderMedia params env ;;
                     streamAndCleanUp env c) initial
                    = streamAndCleanUp env c s0).
    { unfold internalRenderMedia, mbind, M_bind, bind, await.
      rewrite Hresolved, Hinput, Hcbs, Hrender. reflexivity. }
    destruct (willRenderAudioEval env); [exact Hrest|exact Hrest|contradiction]. }
  destruct Hbody as (s0 & Hrm0 & Hbody).
  pose proof (streamAndCleanUp_removals env c s0 Hread) as Hremovals.
  rewrite Hrm0 in Hremovals. cbn [app] in Hremovals.
  pose proof (streamAndCleanUp_awaits_removals env c s0 Hread) as Hawaits.
  fold removed in Hawaits.
  assert (Houtcome : fst (rendererHandler NODE_ENV params env initial)
                     = fst (streamAndCleanUp env c s0)).
  { unfold rendererHandler. rewrite Hrenderer. cbn [negb]. rewrite Hbody.
    destruct (streamAndCleanUp env c s0) as [[[]|err] s1]; cbn [fst];
      [reflexivity|].
    now destruct (bool_decide (NODE_ENV = Some "test")). }
  split; [|split].
  - subst final. unfold rendererHandler. rewrite Hrenderer. cbn [negb].
    rewrite Hbody.
    destruct (streamAndCleanUp env c s0) as [[u|err] s1]; cbn [fst snd] in *;
      [exact Hremovals|].
    now destruct (bool_decide (NODE_ENV = Some "test")).
  - subst final. unfold rendererHandler. rewrite Hrenderer. cbn [negb].
    rewrite Hbody.
    destruct (streamAndCleanUp env c s0) as [[u|err] s1]; cbn [fst snd] in *;
      [reflexivity|].
    now destruct (bool_decide (NODE_ENV = Some "test")).
  - intros Hsent. rewrite Houtcome, (Hawaits Hsent). split.
    + rewrite Promise_all_fulfils. split.
      * intros Hall l Hin. apply Hall. now apply in_map.
      * intros Hall p Hin. apply in_map_iff in Hin as (l & <- & Hin).
        now apply Hall.
    + intros e Hthrow. apply Promise_all_rejects in Hthrow.
      apply in_map_iff in Hthrow as (l & Heq & Hin). now exists l.
Qed.

End Worker.

Lemma failure_is_reported_once_witness :
  exists s,
    rendererHandler None Fixture.payload0 Fixture.env_render_fails initial
    = (Throw Fixture.flaky, s)
    /\ filter (fun m => is_error_occurred m) (emitted s)
       = [errorOccurred Fixture.payload0 Fixture.flaky].
Proof.
  eexists. split.
  - refine (proj1 (proj2 (proj2 (failure_is_reported_once None Fixture.payload0
                     Fixture.env_render_fails Fixture.flaky _ _ eq_refl _)))).
    + discriminate.
    + vm_compute. reflexivity.
  - vm_compute. reflexivity.
Defined.

(** C5, as stated, fails: in the test environment the handler rethrows
    the failure and hands no [error-occurred] message to [onStream]. *)
Lemma test_environment_reports_nothing :
  exists s,
    rendererHandler (Some "test") Fixture.payload0 Fixture.env_render_fails initial
    = (Throw Fixture.flaky, s)
    /\ emitted s = [lambda_invoked 1; frames_rendered 5 0]
    /\ filter (fun m => is_error_occurred m) (emitted s) = [].
Proof. eexists. repeat split; vm_compute; reflexivity. Qed.

Lemma payload0_rendering_completes (env : RenderEnv) :
  VERSION env = "4.0.0" -> getBrowserInstance env = Normal tt ->
  willRenderAudioEval env = audio_yes ->
  resolvedProps env = Normal tt -> inputProps env = Normal tt ->
  renderResult env = Normal tt ->
  rendering_completes Fixture.payload0 env 7.
Proof.
  intros Hv Hb Ha Hr Hi Hres. unfold rendering_completes.
  rewrite Hv, Ha. repeat split; try assumption; try reflexivity.
  - now exists (0, 9).
  - discriminate.
Qed.

Lemma scratch_removed_after_rendering_witness :
  rmIssued (snd (rendererHandler None Fixture.payload0 Fixture.env_send_fails initial))
  = ["/tmp/remotion-tmp-rendererx1/localchunk-00000007.ts";
     "/tmp/remotion-tmp-rendererx1/localchunk-00000007.aac";
     "/tmp/remotion-render-x1"]
  /\ fst (rendererHandler None Fixture.payload0 Fixture.env_ok initial) = Normal tt
  /\ (exists l,
        In l ["/tmp/remotion-tmp-rendererx1/localchunk-00000007.ts";
              "/tmp/remotion-tmp-rendererx1/localchunk-00000007.aac";
              "/tmp/remotion-render-x1"]
        /\ rm Fixture.env_removal_fails l = Throw Fixture.busy).
Proof.
  split; [|split].
  - refine (proj1 (scratch_removed_after_rendering None Fixture.payload0
                     Fixture.env_send_fails 7 _ _)).
    + now apply payload0_rendering_completes.
    + split; [now exists []|]. intros l _. now exists [].
  - refine (proj2 (proj1 (proj2 (proj2 (scratch_removed_after_rendering None
                                          Fixture.payload0 Fixture.env_ok 7 _ _))
                            _)) _).
    + now apply payload0_rendering_completes.
    + split; [now exists []|]. intros l _. now exists [].
    + intros m. reflexivity.
    + intros l _. reflexivity.
  - refine (proj2 (proj2 (proj2 (scratch_removed_after_rendering None
                                   Fixture.payload0 Fixture.env_removal_fails 7 _ _))
                     _) Fixture.busy _).
    + now apply payload0_rendering_completes.
    + split; [now exists []|]. intros l _. now exists [].
    + intros m. reflexivity.
    + vm_compute. reflexivity.
Defined.

(** C7, as stated, fails, in two ways.  When the engine starts, reports
    progress and then fails, the handler reports the failure and ends
    without having issued any removal.  And when everything succeeds, the
    directory that holds the artifacts is not among the removals: only
    the two files in it and the [remotion-render-] directory are. *)
Lemma render_failure_leaves_scratch :
  (exists s,
      rendererHandler None Fixture.payload0 Fixture.env_render_fails initial
      = (Throw Fixture.flaky, s)
      /\ In (lambda_invoked 1) (emitted s)
      /\ rmIssued s = []
      /\ finalized s = true)
  /\ (exists s,
        rendererHandler None Fixture.payload0 Fixture.env_ok initial = (Normal tt, s)
        /\ outdir Fixture.env_ok = "/tmp/remotion-tmp-rendererx1"
        /\ rmIssued s
           = ["/tmp/remotion-tmp-rendererx1/localchunk-00000007.ts";
              "/tmp/remotion-tmp-rendererx1/localchunk-00000007.aac";
              "/tmp/remotion-render-x1"]
        /\ ~ In (outdir Fixture.env_ok) (rmIssued s)).
Proof.
  split.
  - eexists. split; [vm_compute; reflexivity|].
    split; [left; reflexivity|]. split; reflexivity.
  - eexists. split; [vm_compute; reflexivity|].
    split; [reflexivity|]. split; [reflexivity|].
    cbn. intros [H|[H|[H|[]]]]; discriminate.
Qed.

End RendererFacts.

(** ** The orchestrator and the worker together *)

Module PipelineFacts.

Import Constants.
Import CallLambda.
Import StreamRenderer.
Import Pipeline.

#[local] Open Scope list_scope.

Section Chain.

Context `{V : PayloadView} `{WX : Renderer.WorkerExternals}.
Variable join : string -> string -> string.
Variable tie : bool.
Variable w : World LambdaPayload.
Variable currentRegion : string.
Variable Date_now : Z -> Z.

Local Abbreviation run :=
  (streamRendererFunctionWithRetry join tie w currentRegion Date_now).
Local Abbreviation attempt_of :=
  (streamRenderer join tie w currentRegion clientFuel).

(** The worker sets [shouldRetry] only while retries are left. *)
Lemma worker_flag_needs_retries (NODE_ENV : option string) (q : LambdaPayload)
  (env : Renderer.RenderEnv) (e : string) (info : Renderer.ErrorInfo) :
  In (Renderer.error_occurred e true info)
     (Renderer.emitted
        (snd (Renderer.rendererHandler NODE_ENV q env Renderer.initial))) ->
  0 < retriesLeft q.
Proof.
  unfold Renderer.rendererHandler.
  destruct (negb (is_renderer q)); [intros []|].
  destruct (RendererFacts.quiet_renderHandler q env Renderer.initial)
    as (extra & Heq & Hok).
  destruct (Renderer.renderHandler q env Renderer.initial) as [[u|err] s1];
    cbn [snd Renderer.initial Renderer.emitted app] in Heq.
  - cbn. rewrite Heq. intros Hin.
    rewrite List.Forall_forall in Hok. specialize (Hok _ Hin). discriminate.
  - destruct (bool_decide (NODE_ENV = Some "test")).
    + cbn. rewrite Heq. intros Hin.
      rewrite List.Forall_forall in Hok. specialize (Hok _ Hin). discriminate.
    + unfold mbind, Renderer.M_bind, Renderer.bind, Renderer.onStream, Renderer.throw.
      cbn. rewrite Heq. intros Hin. apply in_app_or in Hin as [Hin|[Hin|[]]].
      * rewrite List.Forall_forall in Hok. specialize (Hok _ Hin). discriminate.
      * unfold Renderer.errorOccurred in Hin. injection Hin as _ Hflag _.
        now apply RendererFacts.shouldRetry_of_true in Hflag.
Qed.

Hypothesis Hworker : errors_from_worker w.

Lemma handler_keeps_gated (q : LambdaPayload) (outdir : string)
  (m : StreamingMessage) (s : State) :
  delivers w q m -> gated q s ->
  gated q (snd (receivedStreamingPayload join q outdir m s)).
Proof.
  intros Hdeliv Hgated.
  destruct (resolved s) as [r|] eqn:Hres.
  - intros e He.
    rewrite (StreamRendererFacts.handler_keeps_settled join q outdir m s r Hres) in He.
    apply (Hgated e). congruence.
  - destruct (String.eqb (CallLambda.type (message_ m)) "error-occurred") eqn:Hty.
    + apply String.eqb_eq in Hty.
      intros e He.
      rewrite (StreamRendererFacts.handler_error_occurred join q outdir m s Hty) in He.
      cbn [snd] in He.
      rewrite StreamRendererFacts.resolve_pending in He by exact Hres.
      injection He as _ Hflag.
      destruct (Hworker q m Hdeliv Hty) as (NODE_ENV & env & e0 & sr & info & Hin & Hsr).
      rewrite Hflag in Hsr. subst sr.
      eapply worker_flag_needs_retries. exact Hin.
    + apply String.eqb_neq in Hty.
      intros e He.
      now rewrite (StreamRendererFacts.handler_keeps_pending join q outdir m s Hty Hres)
        in He.
Qed.

Lemma attempt_retry_needs_retries (q : LambdaPayload) (fn outdir : string)
  (n : nat) (s : State) (e : string) (s' : State) (n' : nat) :
  attempt_of q fn outdir n s = Some (Returned (response_error e true), s', n') ->
  0 < retriesLeft q.
Proof.
  unfold streamRenderer.
  destruct (negb (is_renderer q)); [discriminate|].
  destruct (callLambdaWithStreaming clientFuel tie w
              {| functionName := fn; payload_ := q; region := currentRegion |}
              (receivedStreamingPayload join q outdir) 2 n (new_promise s))
    as [[[c s1] n1]|] eqn:Hclient; [|discriminate].
  assert (Hgated : gated q s1).
  { refine (CallLambdaFacts.callLambdaWithStreaming_keeps tie w _ _ (gated q) _
              clientFuel 2 n (new_promise s) c s1 n1 _ Hclient).
    - intros m st Hdeliv. now apply handler_keeps_gated.
    - intros e0 He0. discriminate. }
  intros Hresult.
  destruct (resolved s1) as [r|] eqn:Hres.
  - assert (Hsame : forall r0, resolved (resolve r0 s1) = Some r).
    { intros r0. now rewrite (StreamRendererFacts.resolve_settled r0 r s1 Hres). }
    destruct c as [u|err]; rewrite Hsame in Hresult;
      injection Hresult as -> _ _; now apply (Hgated e).
  - destruct c as [u|err];
      rewrite (StreamRendererFacts.resolve_pending _ _ Hres) in Hresult;
      discriminate.
Qed.

(** A further attempt starts with the payload it is given. *)
Lemma run_starts_with (fuel : nat) (q : LambdaPayload) (fn outdir : string)
  (n : nat) (s : State) o sf nf specs :
  is_renderer q = true ->
  run fuel q fn outdir n s = Some (o, sf, nf, specs) ->
  exists rest, specs = q :: rest.
Proof.
  intros Hrenderer Hrun. destruct fuel as [|fuel]; [discriminate|].
  cbn [streamRendererFunctionWithRetry] in Hrun. rewrite Hrenderer in Hrun.
  cbn [negb] in Hrun.
  destruct (attempt_of q fn outdir n s) as [[[oa s'] n']|]; [|discriminate].
  destruct oa as [result|e|e]; [|injection Hrun as _ _ _ <-; now eexists..].
  destruct (decide_result q result) as [|err|next];
    [injection Hrun as _ _ _ <-; now eexists..|].
  match type of Hrun with
  | match ?rec with _ => _ end = _ =>
      destruct rec as [[[[o1 s1] n1] specs1]|]; [|discriminate]
  end.
  injection Hrun as _ _ _ <-. now eexists.
Qed.

(** C3. With the worker handler on the remote side, when an attempt
    resolves as a failure the orchestrator retries the chunk (a further
    attempt follows, with the attempt incremented and the retries left
    decremented) if and only if the failure carries [shouldRetry = true]
    and the chunk's retries left are greater than zero at that time;
    otherwise it throws the failure's error and makes no further
    attempt. *)
Theorem orchestrator_retries_iff_flag_and_retries_left (fuel : nat)
  (p : LambdaPayload) (fn outdir : string) (n : nat) (s : State)
  (err : string) (sr : bool) (s' : State) (n' : nat) o sf nf specs :
  is_renderer p = true ->
  attempt_of p fn outdir n s = Some (Returned (response_error err sr), s', n') ->
  run (Datatypes.S fuel) p fn outdir n s = Some (o, sf, nf, specs) ->
  let next := with_attempt p (attempt p + 1) (retriesLeft p - 1) in
  ((exists rest, specs = p :: next :: rest) <-> sr = true /\ 0 < retriesLeft p)
  /\ (decide_result p (response_error err sr) = Retry next <->
      sr = true /\ 0 < retriesLeft p)
  /\ (~ (sr = true /\ 0 < retriesLeft p) -> o = ThrewString err /\ specs = [p]).
Proof.
  intros Hrenderer Hattempt Hrun next.
  cbn [streamRendererFunctionWithRetry] in Hrun.
  rewrite Hrenderer in Hrun. cbn [negb] in Hrun. rewrite Hattempt in Hrun.
  cbn [decide_result] in *.
  destruct sr; cbn [negb] in *.
  - pose proof (attempt_retry_needs_retries _ _ _ _ _ _ _ _ Hattempt) as Hleft.
    fold next in Hrun.
    destruct (run fuel next fn outdir n'
                (call_progress
                   (addRetry (attempt p + 1) (Date_now (attempt p)) (chunk p)) s'))
      as [[[[o1 s1] n1] specs1]|] eqn:Hrec; [|discriminate].
    injection Hrun as _ _ _ <-.
    destruct (run_starts_with _ next _ _ _ _ _ _ _ _ Hrenderer Hrec) as [rest ->].
    split; [|split].
    + split; [now intros _|intros _; now exists rest].
    + split; [now intros _|reflexivity].
    + intros Hno. exfalso. apply Hno. now split.
  - injection Hrun as <- _ _ <-.
    split; [|split].
    + split; [intros [rest Heq]; discriminate|intros [Hsr _]; discriminate].
    + split; [discriminate|intros [Hsr _]; discriminate].
    + intros _. now split.
Qed.


End Chain.

(** The remote side of [Fixture.worker_world] is the worker handler, so
    its [error-occurred] messages carry the worker's flag. *)
Lemma worker_world_errors_from_worker : errors_from_worker Fixture.worker_world.
Proof.
  intros q m (n & t & res & f & Hw & Hin & Hdec) Hty.
  unfold Fixture.worker_world in Hw.
  set (env := match n with
              | O => Fixture.env_render_fails
              | _ => Fixture.env_ok
              end) in Hw.
  destruct (Renderer.rendererHandler None q env Renderer.initial) as [c s] eqn:Hrun.
  injection Hw as _ <-.
  unfold frames_of, Fixture.response in Hin. cbn [EventStream flat_map PayloadChunk default] in Hin.
  rewrite !app_nil_r in Hin.
  apply in_map_iff in Hin as (wm & <- & Hwm).
  destruct wm as [a|r e|b|b|r st|e sr info];
    try (cbn in Hdec; injection Hdec as <-; cbn in Hty; discriminate).
  exists None, env, e, sr, info. split.
  - rewrite Hrun. exact Hwm.
  - destruct sr; vm_compute in Hdec; injection Hdec as <-; reflexivity.
Qed.

(** Two runs against the worker: with one retry left the first attempt
    fails with the flag set; with none left it fails without it. *)
Lemma worker_world_attempt_with_retry :
  exists s' n',
    streamRenderer Fixture.join true Fixture.worker_world "eu-central-1" clientFuel
      Fixture.payload0 "fn" "/tmp/out" 0%nat Fixture.state0
    = Some (Returned (response_error "boom" true), s', n').
Proof. eexists _, _. vm_compute. reflexivity. Qed.

Lemma worker_world_attempt_without_retry :
  exists s' n',
    streamRenderer Fixture.join true Fixture.worker_world "eu-central-1" clientFuel
      Fixture.payload_no_retries "fn" "/tmp/out" 0%nat Fixture.state0
    = Some (Returned (response_error "boom" false), s', n').
Proof. eexists _, _. vm_compute. reflexivity. Qed.

Lemma worker_world_run_with_retry :
  exists o sf nf specs,
    streamRendererFunctionWithRetry Fixture.join true Fixture.worker_world
      "eu-central-1" Fixture.clock 2 Fixture.payload0 "fn" "/tmp/out" 0%nat
      Fixture.state0
    = Some (o, sf, nf, specs).
Proof. eexists _, _, _, _. vm_compute. reflexivity. Qed.

Lemma worker_world_run_without_retry :
  exists o sf nf specs,
    streamRendererFunctionWithRetry Fixture.join true Fixture.worker_world
      "eu-central-1" Fixture.clock 1 Fixture.payload_no_retries "fn" "/tmp/out"
      0%nat Fixture.state0
    = Some (o, sf, nf, specs).
Proof. eexists _, _, _, _. vm_compute. reflexivity. Qed.

Lemma orchestrator_retries_iff_flag_and_retries_left_witness :
  (exists o sf nf specs,
      streamRendererFunctionWithRetry Fixture.join true Fixture.worker_world
        "eu-central-1" Fixture.clock 2 Fixture.payload0 "fn" "/tmp/out" 0%nat
        Fixture.state0
      = Some (o, sf, nf, specs)
      /\ exists rest,
          specs = Fixture.payload0 :: with_attempt Fixture.payload0 2 0 :: rest)
  /\ (exists o sf nf specs,
        streamRendererFunctionWithRetry Fixture.join true Fixture.worker_world
          "eu-central-1" Fixture.clock 1 Fixture.payload_no_retries "fn" "/tmp/out"
          0%nat Fixture.state0
        = Some (o, sf, nf, specs)
        /\ o = ThrewString "boom" /\ specs = [Fixture.payload_no_retries]).
Proof.
  split.
  - destruct worker_world_run_with_retry as (o & sf & nf & specs & Hrun).
    destruct worker_world_attempt_with_retry as (s' & n' & Hattempt).
    exists o, sf, nf, specs. split; [exact Hrun|].
    refine (proj2 (proj1 (orchestrator_retries_iff_flag_and_retries_left
                            Fixture.join true Fixture.worker_world "eu-central-1"
                            Fixture.clock worker_world_errors_from_worker
                            1 Fixture.payload0 "fn" "/tmp/out" 0%nat Fixture.state0
                            "boom" true s' n' o sf nf specs eq_refl Hattempt Hrun))
              _).
    split; [reflexivity|]. cbn. lia.
  - destruct worker_world_run_without_retry as (o & sf & nf & specs & Hrun).
    destruct worker_world_attempt_without_retry as (s' & n' & Hattempt).
    exists o, sf, nf, specs. split; [exact Hrun|].
    refine (proj2 (proj2 (orchestrator_retries_iff_flag_and_retries_left
                            Fixture.join true Fixture.worker_world "eu-central-1"
                            Fixture.clock worker_world_errors_from_worker
                            0 Fixture.payload_no_retries "fn" "/tmp/out" 0%nat
                            Fixture.state0
                            "boom" false s' n' o sf nf specs eq_refl Hattempt Hrun))
              _).
    intros [Hsr _]. discriminate.
Defined.


(** The run of the witness: one flaky failure, one retry, success. *)
Example worker_world_run :
  exists sf,
    streamRendererFunctionWithRetry Fixture.join true Fixture.worker_world
      "eu-central-1" Fixture.clock 2 Fixture.payload0 "fn" "/tmp/out" 0%nat
      Fixture.state0
    = Some (Returned tt, sf, 2%nat,
            [Fixture.payload0; with_attempt Fixture.payload0 2 0])
    /\ files sf = ["/tmp/out/chunk:00000007:audio"; "/tmp/out/chunk:00000007:video"].
Proof. eexists. split; vm_compute; reflexivity. Qed.

End PipelineFacts.

(** ** The media buffering effect *)

Module UseMediaBufferingFacts.

Import UseMediaBuffering.

Lemma addEventListener_cleanup (ev : string) (l : Listener) (o : bool)
  (s : EffectState) :
  cleanup (addEventListener ev l o s) = cleanup s.
Proof. unfold addEventListener. now destruct (existsb _ _). Qed.

(** C10. Mounted on an element with buffering on, the effect returns a
    cleanup function; called when no event was dispatched in between, it
    throws a [TypeError], because the variable [cleanup] it calls was
    never assigned. *)
Theorem cleanup_without_waiting_throws (ls : list Registration) :
  exists s,
    mount_and_unmount (Some ls) true []
    = Some (Throw {| name := "TypeError"; message := "cleanup is not a function";
                     stack := "TypeError: cleanup is not a function" |}, s).
Proof.
  unfold mount_and_unmount, effect. cbn [negb fold_left].
  unfold returned_cleanup. rewrite addEventListener_cleanup. cbn [cleanup].
  eexists. reflexivity.
Qed.

(** Events other than [waiting] do not help, and after a [waiting] event
    the same call returns. *)
Example cleanup_after_other_events :
  is_throw (fst (default (Normal tt, mkEffectState [] None 0 [])
                   (mount_and_unmount (Some []) true ["canplay"; "playing"])))
  = true
  /\ is_throw (fst (default (Normal tt, mkEffectState [] None 0 [])
                      (mount_and_unmount (Some []) true ["waiting"])))
     = false.
Proof. split; reflexivity. Qed.

End UseMediaBufferingFacts.

(** ** More on the streaming client *)

Module ClientProperties.

Import CallLambda.

#[local] Open Scope list_scope.

Lemma prefix_app (s t : string) : String.prefix s (s +:+ t) = true.
Proof.
  induction s as [|a s IH]; simpl.
  - now destruct t.
  - destruct (ascii_dec a a) as [_|Hne]; [exact IH|contradiction].
Qed.

Lemma prefix_app_l (needle s t : string) :
  String.prefix needle s = true -> String.prefix needle (s +:+ t) = true.
Proof.
  revert s. induction needle as [|a needle IH]; intros s Hpre.
  - now destruct (s +:+ t).
  - destruct s as [|b s]; [discriminate|]. simpl in *.
    destruct (ascii_dec a b); [now apply IH|discriminate].
Qed.

Lemma includes_app_l (needle s t : string) :
  includes s needle = true -> includes (s +:+ t) needle = true.
Proof.
  induction s as [|b s IH]; intros Hin.
  - cbn in Hin. rewrite orb_false_r in Hin.
    destruct needle; [|discriminate]. now destruct t.
  - cbn [includes] in Hin. apply orb_true_iff in Hin as [Hpre|Hrest].
    + change (String b s +:+ t) with (String b (s +:+ t)).
      cbn [includes]. apply orb_true_iff. left.
      now apply (prefix_app_l needle (String b s) t).
    + change (String b s +:+ t) with (String b (s +:+ t)).
      cbn [includes]. apply orb_true_iff. right. now apply IH.
Qed.

Lemma includes_app_r (needle s t : string) :
  includes t needle = true -> includes (s +:+ t) needle = true.
Proof.
  intros Hin. induction s as [|b s IH]; [exact Hin|].
  change (String b s +:+ t) with (String b (s +:+ t)).
  cbn [includes]. apply orb_true_iff. now right.
Qed.

Lemma includes_self (s : string) : includes s s = true.
Proof.
  destruct s as [|a s]; [reflexivity|].
  cbn [includes]. apply orb_true_iff. left.
  pose proof (prefix_app (String a s) "") as Hpre.
  assert (Hnil : forall u, u +:+ "" = u).
  { intros u. induction u as [|c u IHu]; [reflexivity|].
    change (String c u +:+ "") with (String c (u +:+ "")). now f_equal. }
  now rewrite Hnil in Hpre.
Qed.

(** [X1]. The timer of the stall guard is left pending exactly when the
    send promise is rejected before the deadline; the call then throws
    that rejection unchanged. *)
Theorem timer_left_pending_iff {A} (tie : bool) (send : Settle A) :
  (snd (invokeStreamOrTimeout tie send) = TimerPending <->
   exists t e, send = RejectsAt t e
               /\ (t < 60000 \/ (t = 60000 /\ tie = false)))
  /\ (forall t e, send = RejectsAt t e ->
      snd (invokeStreamOrTimeout tie send) = TimerPending ->
      fst (invokeStreamOrTimeout tie send) = Throw e).
Proof.
  unfold invokeStreamOrTimeout, Promise_race.
  change STREAM_STALL_TIMEOUT with 60000.
  destruct send as [t a|t e|].
  - split.
    + split.
      * destruct ((t <? 60000) || (t =? 60000) && negb tie); discriminate.
      * intros (t0 & e0 & Heq & _). discriminate.
    + intros t0 e0 Heq. discriminate.
  - destruct ((t <? 60000) || (t =? 60000) && negb tie) eqn:Hwin.
    + split.
      * split; [intros _|reflexivity].
        exists t, e. split; [reflexivity|].
        apply orb_true_iff in Hwin as [Hlt|Htie].
        -- left. now apply Z.ltb_lt.
        -- apply andb_true_iff in Htie as [Heq Htie]. right.
           split; [now apply Z.eqb_eq|now destruct tie].
      * intros t0 e0 Heq _. now injection Heq as _ <-.
    + split.
      * split; [discriminate|].
        intros (t0 & e0 & Heq & Hearly). injection Heq as <- <-.
        apply orb_false_iff in Hwin as [Hlt Htie].
        apply Z.ltb_ge in Hlt.
        destruct Hearly as [Hearly|[-> ->]]; [lia|].
        discriminate.
      * intros t0 e0 _. discriminate.
  - split.
    + split; [discriminate|]. intros (t0 & e0 & Heq & _). discriminate.
    + intros t0 e0 Heq. discriminate.
Qed.

Section Events.

Context `{X : Externals} {S : Type}.
Variable h : OnMessage S.
Variables rg fn rid : string.

Lemma invokeCompleteError_none (ic : InvokeCompleteInfo) :
  invokeCompleteError rg fn rid ic = None <->
  ErrorCode ic = None \/ ErrorCode ic = Some "".
Proof.
  unfold invokeCompleteError, truthy_string.
  destruct (ErrorCode ic) as [code|]; cbn [default].
  - destruct (String.eqb_spec code "") as [->|Hne]; cbn [negb].
    + split; [now right|reflexivity].
    + cbv iota.
      match goal with |- context [if ?b then _ else _] => destruct b end;
        (split; [discriminate|intros [Hnone|Hempty]; congruence]).
  - split; [now left|reflexivity].
Qed.

(** [X2]. A completion event counts as a failure exactly when its error
    code is present and not empty; the error thrown then names the
    function and carries the remote's error details and the request id of
    the log query. *)
Theorem completion_error_iff (ic : InvokeCompleteInfo) :
  (invokeCompleteError rg fn rid ic = None <->
   ErrorCode ic = None \/ ErrorCode ic = Some "")
  /\ (forall e, invokeCompleteError rg fn rid ic = Some e ->
      name e = "Error"
      /\ includes (message e) fn = true
      /\ includes (message e) (ErrorDetails ic) = true
      /\ includes (message e) rid = true).
Proof.
  split; [apply invokeCompleteError_none|].
  intros e He. unfold invokeCompleteError in He.
  destruct (truthy_string (ErrorCode ic)); [|discriminate].
  assert (Hurl : includes (logsUrl rg fn rid
                           +:+ " to see the logs of this invocation.") rid
                 = true).
  { apply includes_app_l. unfold logsUrl.
    do 5 apply includes_app_r. apply includes_app_l, includes_self. }
  destruct (String.eqb (default "" (ErrorCode ic)) "Unhandled");
    injection He as <-; cbn [name message new_Error].
  - split; [reflexivity|]. split; [|split].
    + apply includes_app_r, includes_app_l, includes_self.
    + do 3 apply includes_app_r. apply includes_app_l, includes_self.
    + do 5 apply includes_app_r.
      exact Hurl.
  - split; [reflexivity|]. split; [|split].
    + apply includes_app_r, includes_app_l, includes_self.
    + do 5 apply includes_app_r. apply includes_app_l, includes_self.
    + do 7 apply includes_app_r.
      exact Hurl.
Qed.

(** [X3]. A failed completion ends the stream: the frames of its own
    event are still handled, the events after it are not looked at, and
    the call throws. *)
Theorem failed_completion_ends_stream (ev : Event) (ic : InvokeCompleteInfo)
  (post : list Event) (s : S) :
  InvokeComplete ev = Some ic ->
  truthy_string (ErrorCode ic) = true ->
  consumeEvents h rg fn rid (ev :: post) s = consumeEvents h rg fn rid [ev] s
  /\ is_throw (fst (consumeEvents h rg fn rid (ev :: post) s)) = true
  /\ snd (consumeEvents h rg fn rid (ev :: post) s)
     = snd (match PayloadChunk ev with
            | Some frames => onData h frames s
            | None => (Normal tt, s)
            end).
Proof.
  intros Hic Hcode.
  assert (Herr : exists e, InvokeComplete ev ≫= invokeCompleteError rg fn rid = Some e).
  { rewrite Hic. cbn. unfold invokeCompleteError. rewrite Hcode.
    destruct (String.eqb _ _); eexists; reflexivity. }
  destruct Herr as [e Herr].
  cbn [consumeEvents].
  destruct (match PayloadChunk ev with
            | Some frames => onData h frames s
            | None => (Normal tt, s)
            end) as [[u|e0] s1]; cbn [fst snd].
  - rewrite Herr. now repeat split.
  - now repeat split.
Qed.

End Events.

Lemma completion_error_iff_witness :
  exists e,
    invokeCompleteError "eu-central-1" "fn" "req-1"
      {| ErrorCode := Some "Unhandled"; ErrorDetails := "out of memory" |} = Some e
    /\ includes (message e) "out of memory" = true.
Proof.
  eexists. split; [reflexivity|].
  refine (proj1 (proj2 (proj2 (proj2 (completion_error_iff "eu-central-1" "fn" "req-1"
            {| ErrorCode := Some "Unhandled"; ErrorDetails := "out of memory" |})
            _ eq_refl)))).
Defined.

Lemma failed_completion_ends_stream_witness :
  consumeEvents Samples.collecting "eu-central-1" "fn" "req-1"
    [Samples.failed_completion; Samples.chunk_event [Fixture.frame 5 "{}"]] []
  = consumeEvents Samples.collecting "eu-central-1" "fn" "req-1"
      [Samples.failed_completion] [].
Proof.
  refine (proj1 (failed_completion_ends_stream Samples.collecting
                   "eu-central-1" "fn" "req-1" Samples.failed_completion _
                   [Samples.chunk_event [Fixture.frame 5 "{}"]] [] eq_refl _)).
  reflexivity.
Defined.

Lemma timer_left_pending_iff_witness :
  invokeStreamOrTimeout true (RejectsAt 5 (new_Error "socket hang up") : Settle string)
  = (Throw (new_Error "socket hang up"), TimerPending).
Proof.
  pose proof (timer_left_pending_iff true
                (RejectsAt 5 (new_Error "socket hang up") : Settle string))
    as [Hiff Hthrow].
  assert (Hpending : snd (invokeStreamOrTimeout true
                            (RejectsAt 5 (new_Error "socket hang up") : Settle string))
                     = TimerPending).
  { apply (proj2 Hiff). exists 5, (new_Error "socket hang up").
    split; [reflexivity|left; lia]. }
  specialize (Hthrow 5 _ eq_refl Hpending).
  destruct (invokeStreamOrTimeout true
              (RejectsAt 5 (new_Error "socket hang up") : Settle string))
    as [c tm]. cbn [fst snd] in *. now subst.
Defined.

End ClientProperties.

(** ** More on the retrying client and the unary call *)

Module ClientRetryProperties.

Import CallLambda.

Section Retry.

Context `{X : Externals} {S Req : Type}.
Variables (tie : bool) (w : World Req) (options : Options Req) (h : OnMessage S).

Lemma fuel_is_enough (fuel : nat) :
  forall (r : Z) (n : nat) (s : S),
    0 <= r -> (Z.to_nat r < fuel)%nat ->
    callLambdaWithStreaming fuel tie w options h r n s
    = callLambdaWithStreaming (Datatypes.S (Z.to_nat r)) tie w options h r n s.
Proof.
  induction fuel as [|fuel IH]; intros r n s Hr Hfuel; [lia|].
  rewrite !CallLambdaFacts.callLambdaWithStreaming_step.
  destruct (callLambdaWithStreamingWithoutRetry tie options h
      (w n (payload_ options)) s) as [[u|err] s1]; [reflexivity|].
  destruct (r =? 0) eqn:Hzero; [reflexivity|]. cbn [negb andb].
  destruct (notRetryable err); [reflexivity|]. cbn [negb].
  apply Z.eqb_neq in Hzero.
  replace (Z.to_nat r) with (Datatypes.S (Z.to_nat (r - 1))) by lia.
  apply IH; lia.
Qed.

(** [X4]. With a retry counter that is not negative the client ends after
    at least one and at most [r + 1] invocations, and any amount of fuel
    above [r] gives the same result. *)
Theorem client_ends_within_bound (fuel1 fuel2 : nat) (r : Z) (n : nat) (s : S) :
  0 <= r -> (Z.to_nat r < fuel1)%nat -> (Z.to_nat r < fuel2)%nat ->
  callLambdaWithStreaming fuel1 tie w options h r n s
  = callLambdaWithStreaming fuel2 tie w options h r n s
  /\ exists c s' n',
       callLambdaWithStreaming fuel1 tie w options h r n s = Some (c, s', n')
       /\ (n < n' <= n + Z.to_nat r + 1)%nat.
Proof.
  intros Hr Hfuel1 Hfuel2. split.
  - rewrite (fuel_is_enough fuel1), (fuel_is_enough fuel2); auto.
  - now apply CallLambdaFacts.callLambdaWithStreaming_total.
Qed.

(** [X5]. An error the client throws is the error of the last invocation
    it issued, unchanged, and it is thrown because the counter had
    reached zero by then or because its message holds none of the three
    texts. *)
Theorem thrown_error_is_the_last_attempts (fuel : nat) :
  forall (r : Z) (n : nat) (s : S) (err : Error) (s' : S) (n' : nat),
    callLambdaWithStreaming fuel tie w options h r n s = Some (Throw err, s', n') ->
    (n < n')%nat
    /\ (exists s0,
          callLambdaWithStreamingWithoutRetry tie options h
            (w (pred n') (payload_ options)) s0
          = (Throw err, s'))
    /\ (r - Z.of_nat (n' - n - 1) = 0 \/ notRetryable err = true).
Proof.
  induction fuel as [|fuel IH]; intros r n s err s' n' Hrun; [discriminate|].
  rewrite CallLambdaFacts.callLambdaWithStreaming_step in Hrun.
  destruct (callLambdaWithStreamingWithoutRetry tie options h
      (w n (payload_ options)) s) as [[u|e] s1] eqn:Hattempt; [discriminate|].
  destruct (negb (r =? 0) && negb (notRetryable e)) eqn:Hretry.
  - destruct (IH _ _ _ _ _ _ Hrun) as (Hn & Hlast & Hwhy).
    split; [lia|]. split; [exact Hlast|].
    destruct Hwhy as [Hzero|Hnot]; [left; lia|now right].
  - injection Hrun as <- <- <-.
    split; [lia|]. split; [now exists s|].
    apply andb_false_iff in Hretry as [Hzero|Hnot].
    + left. apply negb_false_iff, Z.eqb_eq in Hzero.
      replace (Datatypes.S n - n - 1)%nat with 0%nat by lia. lia.
    + right. now apply negb_false_iff in Hnot.
Qed.

Lemma stalled_attempt (n : nat) (s : S) :
  pending_at_deadline (w n (payload_ options)) ->
  callLambdaWithStreamingWithoutRetry tie options h (w n (payload_ options)) s
  = (Throw (new_Error LAMBDA_STREAM_STALL), s).
Proof.
  intros Hpending. unfold callLambdaWithStreamingWithoutRetry, invokeStreamOrTimeout.
  now rewrite (CallLambdaFacts.race_pending tie _ Hpending).
Qed.

Lemma stalled_client (fuel : nat) :
  forall (r : Z) (n : nat) (s : S),
    (forall k, pending_at_deadline (w k (payload_ options))) ->
    0 <= r -> (Z.to_nat r < fuel)%nat ->
    callLambdaWithStreaming fuel tie w options h r n s
    = Some (Throw (new_Error LAMBDA_STREAM_STALL), s,
            (Datatypes.S (Z.to_nat r) + n)%nat).
Proof.
  induction fuel as [|fuel IH]; intros r n s Hstall Hr Hfuel; [lia|].
  rewrite CallLambdaFacts.callLambdaWithStreaming_step.
  rewrite (stalled_attempt n s (Hstall n)).
  change (notRetryable (new_Error LAMBDA_STREAM_STALL)) with false.
  cbn [negb]. rewrite andb_true_r.
  destruct (r =? 0) eqn:Hzero; cbn [negb].
  - apply Z.eqb_eq in Hzero. subst r. reflexivity.
  - apply Z.eqb_neq in Hzero.
    rewrite IH by (auto; lia). f_equal. f_equal. lia.
Qed.

(** [X6]. When no invocation is acknowledged before the deadline, the
    client issues [r + 1] invocations, the handler's state stays as it
    was, and the stall error is thrown. *)
Theorem stall_is_retried_to_the_bound (fuel : nat) (r : Z) (n : nat) (s : S) :
  (forall k, pending_at_deadline (w k (payload_ options))) ->
  0 <= r -> (Z.to_nat r < fuel)%nat ->
  callLambdaWithStreaming fuel tie w options h r n s
  = Some (Throw (new_Error "AWS did not invoke Lambda in 60000ms"), s,
          (n + Z.to_nat r + 1)%nat).
Proof.
  intros Hstall Hr Hfuel.
  rewrite (stalled_client fuel r n s Hstall Hr Hfuel).
  change (new_Error LAMBDA_STREAM_STALL)
    with (new_Error "AWS did not invoke Lambda in 60000ms").
  f_equal. f_equal. lia.
Qed.

End Retry.

Lemma client_ends_within_bound_witness :
  callLambdaWithStreaming 3 true Samples.rejected_then_fine Fixture.options0
    Samples.collecting 2 0%nat []
  = callLambdaWithStreaming 7 true Samples.rejected_then_fine Fixture.options0
      Samples.collecting 2 0%nat [].
Proof.
  refine (proj1 (client_ends_within_bound true Samples.rejected_then_fine
                   Fixture.options0 Samples.collecting 3 7 2 0%nat [] _ _ _)).
  - lia.
  - cbn. lia.
  - cbn. lia.
Defined.

Lemma thrown_error_is_the_last_attempts_witness :
  exists s0,
    callLambdaWithStreamingWithoutRetry true Fixture.options0 Fixture.counting
      (Fixture.truncated_then_fine 0%nat Fixture.payload0) s0
    = (Throw (new_Error "Invalid JSON (frames-rendered): {"), 0%nat).
Proof.
  refine (proj1 (proj2 (thrown_error_is_the_last_attempts true
                          Fixture.truncated_then_fine Fixture.options0
                          Fixture.counting 3 2 0%nat 0%nat
                          (new_Error "Invalid JSON (frames-rendered): {")
                          0%nat 1%nat _))).
  vm_compute. reflexivity.
Defined.

Lemma stall_is_retried_to_the_bound_witness :
  callLambdaWithStreaming 3 true Fixture.never_acknowledged Fixture.options0
    Samples.collecting 2 0%nat []
  = Some (Throw (new_Error "AWS did not invoke Lambda in 60000ms"), [], 3%nat).
Proof.
  refine (stall_is_retried_to_the_bound true Fixture.never_acknowledged
            Fixture.options0 Samples.collecting 3 2 0%nat [] _ _ _).
  - intros k. exact I.
  - lia.
  - cbn. lia.
Defined.

Section Unary.

Import CallLambdaUnary.

Context `{U : UnaryExternals}.

(** [X7]. The unary call returns a value exactly when the transport
    answered, the answer parses, and the parsed value is neither [null]
    nor an error response; an error response is thrown as an [Error] with
    the remote's message and stack; on [null] the read of its type throws
    a [TypeError]; an answer without payload is reported as invalid JSON;
    a rejection of the transport is passed on. *)
Theorem callLambda_outcomes (type : string) (send : completion (option bytes)) :
  (forall v, callLambda type send = Normal v <->
             exists p, send = Normal p
                       /\ JSON_parse (decode_payload p) = Some v
                       /\ response_shape v = shape_other)
  /\ (forall p v message stack, send = Normal p ->
      JSON_parse (decode_payload p) = Some v ->
      response_shape v = shape_error message stack ->
      callLambda type send
      = Throw {| name := "Error"; message := message; stack := stack |})
  /\ (forall p v, send = Normal p ->
      JSON_parse (decode_payload p) = Some v ->
      response_shape v = shape_null ->
      callLambda type send = Throw TypeError_null_read)
  /\ (send = Normal None -> JSON_parse "" = None ->
      callLambda type send
      = Throw (new_Error ("Invalid JSON (" +:+ type +:+ "): " +:+ JSON_stringify "")))
  /\ (forall e, send = Throw e -> callLambda type send = Throw e).
Proof.
  unfold callLambda, callLambdaWithoutRetry.
  split; [|split; [|split; [|split]]].
  - intros v. destruct send as [p|e].
    + destruct (JSON_parse (decode_payload p)) as [v0|] eqn:Hparse.
      * destruct (response_shape v0) as [|message stack|] eqn:Hshape.
        -- split; [discriminate|].
           intros (p0 & Heq & Hp & Hother). injection Heq as <-.
           rewrite Hparse in Hp. injection Hp as <-. congruence.
        -- split; [discriminate|].
           intros (p0 & Heq & Hp & Hother). injection Heq as <-.
           rewrite Hparse in Hp. injection Hp as <-. congruence.
        -- split.
           ++ intros Heq. injection Heq as <-. now exists p.
           ++ intros (p0 & Heq & Hp & _). injection Heq as <-.
              rewrite Hparse in Hp. now injection Hp as <-.
      * split; [discriminate|].
        intros (p0 & Heq & Hp & _). injection Heq as <-. congruence.
    + split; [discriminate|]. intros (p0 & Heq & _). discriminate.
  - intros p v message stack -> Hparse Hshape. now rewrite Hparse, Hshape.
  - intros p v -> Hparse Hshape. now rewrite Hparse, Hshape.
  - intros -> Hparse. cbn [decode_payload]. now rewrite Hparse.
  - now intros e ->.
Qed.

End Unary.

Lemma callLambda_outcomes_witness :
  @CallLambdaUnary.callLambda _ Samples.unary "status"
    (Normal (Some (list_byte_of_string Samples.text_error)))
  = Throw {| name := "Error"; message := "boom";
             stack := "Error: boom at handler" |}
  /\ @CallLambdaUnary.callLambda _ Samples.unary "status"
       (Normal (Some (list_byte_of_string "null")))
     = Throw {| name := "TypeError";
                message := "Cannot read properties of null (reading 'type')";
                stack := "TypeError: Cannot read properties of null (reading 'type')" |}
  /\ @CallLambdaUnary.callLambda _ Samples.unary "status"
       (Normal (Some (list_byte_of_string Fixture.text_fatal)))
     = Normal (Samples.u_object None)
  /\ @CallLambdaUnary.callLambda _ Samples.unary "status" (Normal None)
     = Throw (new_Error ("Invalid JSON (status): " +:+ Fixture.quoted "")).
Proof.
  pose proof (@callLambda_outcomes _ Samples.unary "status"
                (Normal (Some (list_byte_of_string Samples.text_error))))
    as (_ & Herror & _).
  pose proof (@callLambda_outcomes _ Samples.unary "status"
                (Normal (Some (list_byte_of_string "null"))))
    as (_ & _ & Hnull & _).
  pose proof (@callLambda_outcomes _ Samples.unary "status"
                (Normal (Some (list_byte_of_string Fixture.text_fatal))))
    as (Hother & _).
  pose proof (@callLambda_outcomes _ Samples.unary "status" (Normal None))
    as (_ & _ & _ & Hempty & _).
  split; [|split; [|split]].
  - exact (Herror _ (Samples.u_error "boom" "Error: boom at handler")
             "boom" "Error: boom at handler" eq_refl eq_refl eq_refl).
  - exact (Hnull _ Samples.u_null eq_refl eq_refl eq_refl).
  - apply Hother. eexists. split; [reflexivity|]. split; reflexivity.
  - exact (Hempty eq_refl eq_refl).
Defined.

End ClientRetryProperties.

(** ** More on the chunk orchestrator *)

Module OrchestratorProperties.

Import Constants.
Import CallLambda.
Import StreamRenderer.
Import StreamRendererSpec.

#[local] Open Scope list_scope.

Lemma filter_nothing {A} (f : A -> bool) (l : list A) :
  Forall (fun a => f a = false) l -> List.filter f l = [].
Proof.
  induction 1 as [|a l Ha _ IH]; [reflexivity|]. cbn. now rewrite Ha.
Qed.

Section Handler.

Context `{V : PayloadView}.
Variable join : string -> string -> string.

Ltac by_type ty :=
  unfold receivedStreamingPayload; cbn zeta;
  destruct (String.eqb_spec ty "lambda-invoked") as [Hty1|Hty1]; [|
  destruct (String.eqb_spec ty "frames-rendered") as [Hty2|Hty2]; [|
  destruct (String.eqb_spec ty "video-chunk-rendered") as [Hty3|Hty3]; [|
  destruct (String.eqb_spec ty "audio-chunk-rendered") as [Hty4|Hty4]; [|
  destruct (String.eqb_spec ty "chunk-complete") as [Hty5|Hty5]; [|
  destruct (String.eqb_spec ty "error-occurred") as [Hty6|Hty6] ]]]]].

(** [X8]. On a message whose type is none of the six it knows, the
    handler throws an error that names the type, and leaves the shared
    state as it was: nothing is recorded, written or resolved. *)
Theorem unknown_type_is_thrown (p : LambdaPayload) (outdir : string)
  (m : StreamingMessage) (s : State) :
  let ty := CallLambda.type (message_ m) in
  ~ In ty known_types ->
  receivedStreamingPayload join p outdir m s
  = (Throw (new_Error ("Unknown message type " +:+ ty)), s).
Proof.
  intros ty. subst ty. unfold known_types.
  by_type (CallLambda.type (message_ m));
    try (intros Hno; exfalso; apply Hno; cbn [In]; intuition congruence).
  reflexivity.
Qed.

Lemma resolve_fields (r : StreamRendererResponse) (s : State) :
  progressCalls (resolve r s) = progressCalls s
  /\ fs (resolve r s) = fs s /\ files (resolve r s) = files s.
Proof. unfold resolve. now destruct (resolved s). Qed.

(** What a handled message adds to the shared state. *)
Lemma handler_adds (p : LambdaPayload) (outdir : string)
  (m : StreamingMessage) (s : State) :
  let s' := snd (receivedStreamingPayload join p outdir m s) in
  (exists calls, progressCalls s' = progressCalls s ++ calls
                 /\ Forall (fun c => is_addRetry c = false) calls)
  /\ ((files s' = files s /\ fs s' = fs s)
      \/ exists f, files s' = files s ++ [f]
                   /\ fs s' = <[f := payload (message_ m)]> (fs s)).
Proof.
  by_type (CallLambda.type (message_ m)); cbn [snd].
  - split; [exists [setLambdaInvoked (chunk p)]|left]; repeat constructor.
  - split; [eexists [_]|left]; repeat constructor.
  - split; [exists []|right].
    + cbn. rewrite app_nil_r. now split.
    + eexists. split; reflexivity.
  - split; [exists []|right].
    + cbn. rewrite app_nil_r. now split.
    + eexists. split; reflexivity.
  - split; [eexists [_]|left]; repeat constructor.
  - destruct (resolve_fields
                (response_error (payload_error (payload (message_ m)))
                                (payload_shouldRetry (payload (message_ m))))
                (call_progress (setFrames (chunk p) 0 0)
                   (call_progress
                      (addErrorWithoutUpload (payload_errorInfo (payload (message_ m))))
                      s))) as (-> & -> & ->).
    split; [eexists [_; _]|left].
    + cbn. rewrite <- app_assoc. split; [reflexivity|]. repeat constructor.
    + now split.
  - split; [exists []|left].
    + rewrite app_nil_r. now split.
    + now split.
Qed.

End Handler.

Section Runs.

Context `{V : PayloadView}.
Variable join : string -> string -> string.
Variable tie : bool.
Variable w : World LambdaPayload.
Variable currentRegion : string.
Variable Date_now : Z -> Z.

Local Abbreviation run :=
  (streamRendererFunctionWithRetry join tie w currentRegion Date_now).
Local Abbreviation attempt_of :=
  (streamRenderer join tie w currentRegion clientFuel).

(** A property of the shared state kept by the handler, by [resolve] and
    by a new promise is kept by an attempt. *)
Lemma attempt_keeps (P : State -> Prop) :
  (forall p outdir m s, P s -> P (snd (receivedStreamingPayload join p outdir m s))) ->
  (forall r s, P s -> P (resolve r s)) ->
  (forall s, P s -> P (new_promise s)) ->
  forall p fn outdir n s o s' n',
    P s -> attempt_of p fn outdir n s = Some (o, s', n') -> P s'.
Proof.
  intros Hhandler Hresolve Hnew p fn outdir n s o s' n' Hs.
  unfold streamRenderer.
  destruct (negb (is_renderer p)); [now intros [= _ <- _]|].
  destruct (callLambdaWithStreaming clientFuel tie w
              {| functionName := fn; payload_ := p; region := currentRegion |}
              (receivedStreamingPayload join p outdir) 2 n (new_promise s))
    as [[[c s1] n1]|] eqn:Hclient; [|discriminate].
  assert (Hs1 : P s1).
  { refine (CallLambdaFacts.callLambdaWithStreaming_keeps tie w _ _ P _
              clientFuel 2 n (new_promise s) c s1 n1 (Hnew s Hs) Hclient).
    intros m st _. apply Hhandler. }
  destruct c as [u|err];
    match goal with
    |- context [resolved (resolve ?r s1)] =>
        destruct (resolved (resolve r s1)); [|discriminate];
        intros [= _ <- _]; now apply Hresolve
    end.
Qed.

(** If, moreover, recording a call on the progress helper keeps it, the
    whole orchestration keeps it. *)
Lemma run_keeps (P : State -> Prop) :
  (forall p outdir m s, P s -> P (snd (receivedStreamingPayload join p outdir m s))) ->
  (forall r s, P s -> P (resolve r s)) ->
  (forall s, P s -> P (new_promise s)) ->
  (forall c s, P s -> P (call_progress c s)) ->
  forall fuel p fn outdir n s o sf nf specs,
    P s -> run fuel p fn outdir n s = Some (o, sf, nf, specs) -> P sf.
Proof.
  intros Hhandler Hresolve Hnew Hcall.
  induction fuel as [|fuel IH]; intros p fn outdir n s o sf nf specs Hs Hrun;
    [discriminate|].
  cbn [streamRendererFunctionWithRetry] in Hrun.
  destruct (negb (is_renderer p)); [now injection Hrun as _ <- _ _|].
  destruct (attempt_of p fn outdir n s) as [[[oa s'] n']|] eqn:Hattempt;
    [|discriminate].
  pose proof (attempt_keeps P Hhandler Hresolve Hnew _ _ _ _ _ _ _ _ Hs Hattempt)
    as Hs'.
  destruct oa as [result|e|e]; [|now injection Hrun as _ <- _ _..].
  destruct (decide_result p result) as [|err|next];
    [now injection Hrun as _ <- _ _..|].
  match type of Hrun with
  | match ?rec with _ => _ end = _ =>
      destruct rec as [[[[o1 s1] n1] specs1]|] eqn:Hrec; [|discriminate]
  end.
  injection Hrun as _ <- _ _.
  eapply IH; [|exact Hrec]. now apply Hcall.
Qed.

(** [X9]. The orchestration only adds to what it shares with its
    caller: the recorded paths and the calls on the progress helper it
    started with stay in front, no file disappears, and if every recorded
    path named a written file before, this still holds afterwards. *)
Theorem orchestration_only_adds (fuel : nat) (p : LambdaPayload)
  (fn outdir : string) (n : nat) (s : State) o sf nf specs :
  run fuel p fn outdir n s = Some (o, sf, nf, specs) ->
  files s `prefix_of` files sf
  /\ progressCalls s `prefix_of` progressCalls sf
  /\ dom (fs s) ⊆ dom (fs sf)
  /\ (files_written s -> files_written sf).
Proof.
  intros Hrun.
  assert (Hgrow : files s `prefix_of` files sf
                  /\ progressCalls s `prefix_of` progressCalls sf
                  /\ dom (fs s) ⊆ dom (fs sf)).
  { refine (run_keeps
              (fun st => files s `prefix_of` files st
                         /\ progressCalls s `prefix_of` progressCalls st
                         /\ dom (fs s) ⊆ dom (fs st))
              _ _ _ _ fuel p fn outdir n s o sf nf specs _ Hrun).
    - intros q od m st (Hfiles & Hcalls & Hdom).
      destruct (handler_adds join q od m st) as [(calls & -> & _) Hfs].
      split; [|split].
      + destruct Hfs as [[-> _]|(f & -> & _)];
          [exact Hfiles|now apply prefix_app_r].
      + now apply prefix_app_r.
      + destruct Hfs as [[_ ->]|(f & _ & ->)]; [exact Hdom|].
        rewrite dom_insert. set_solver.
    - intros r st Hst. destruct (resolve_fields r st) as (-> & -> & ->). exact Hst.
    - intros st Hst. exact Hst.
    - intros c st (Hfiles & Hcalls & Hdom). cbn.
      split; [exact Hfiles|]. split; [now apply prefix_app_r|exact Hdom].
    - repeat split; reflexivity. }
  destruct Hgrow as (Hfiles & Hcalls & Hdom).
  repeat split; try assumption.
  intros Hwritten.
  refine (run_keeps files_written _ _ _ _ fuel p fn outdir n s o sf nf specs
            Hwritten Hrun).
  - intros q od m st Hst f.
    destruct (handler_adds join q od m st) as [_ [[-> ->]|(f0 & -> & ->)]];
      [apply Hst|].
    intros Hin. apply in_app_or in Hin as [Hin|[<-|[]]].
    + apply lookup_insert_is_Some'. right. now apply Hst.
    + apply lookup_insert_is_Some'. now left.
  - intros r st Hst f. destruct (resolve_fields r st) as (_ & -> & ->). apply Hst.
  - intros st Hst. exact Hst.
  - intros c st Hst. exact Hst.
Qed.

Lemma attempt_of_renderer (p : LambdaPayload) (fn outdir : string) (n : nat)
  (s : State) o s' n' :
  is_renderer p = true ->
  attempt_of p fn outdir n s = Some (o, s', n') ->
  (exists r, o = Returned r /\ resolved s' = Some r)
  /\ (n < n' <= n + 3)%nat.
Proof.
  intros Hrenderer. unfold streamRenderer. rewrite Hrenderer. cbn [negb].
  destruct (CallLambdaFacts.callLambdaWithStreaming_total tie w
              {| functionName := fn; payload_ := p; region := currentRegion |}
              (receivedStreamingPayload join p outdir) clientFuel 2 n (new_promise s))
    as (c & s1 & n1 & -> & Hn); [lia|unfold clientFuel; lia|].
  change (Z.to_nat 2) with 2%nat in Hn.
  destruct c as [u|err];
    match goal with
    |- context [resolved (resolve ?r s1)] =>
        destruct (resolved (resolve r s1)) as [r0|] eqn:Hres; [|discriminate];
        intros [= <- <- <-]; split; [now exists r0|lia]
    end.
Qed.

Lemma run_specs_head (fuel : nat) (p : LambdaPayload) (fn outdir : string)
  (n : nat) (s : State) o sf nf specs :
  is_renderer p = true ->
  run fuel p fn outdir n s = Some (o, sf, nf, specs) ->
  exists rest, specs = p :: rest.
Proof.
  intros Hrenderer Hrun. destruct fuel as [|fuel]; [discriminate|].
  cbn [streamRendererFunctionWithRetry] in Hrun. rewrite Hrenderer in Hrun.
  cbn [negb] in Hrun.
  destruct (attempt_of p fn outdir n s) as [[[oa s'] n']|]; [|discriminate].
  destruct oa as [result|e|e]; [|injection Hrun as _ _ _ <-; now eexists..].
  destruct (decide_result p result) as [|err|next];
    [injection Hrun as _ _ _ <-; now eexists..|].
  match type of Hrun with
  | match ?rec with _ => _ end = _ =>
      destruct rec as [[[[o1 s1] n1] specs1]|]; [|discriminate]
  end.
  injection Hrun as _ _ _ <-. now eexists.
Qed.

Lemma decide_result_retry (p next : LambdaPayload) (result : StreamRendererResponse) :
  decide_result p result = Retry next ->
  next = with_attempt p (attempt p + 1) (retriesLeft p - 1).
Proof.
  destruct result as [|err sr]; [discriminate|]. cbn.
  destruct sr; cbn; [now intros [= <-]|discriminate].
Qed.

(** [X10]. The retry events recorded by an orchestration are, in order,
    one for each attempt but the last, each with the attempt number of
    the attempt that follows and the chunk index. *)
Theorem retries_are_recorded (fuel : nat) :
  forall (p : LambdaPayload) (fn outdir : string) (n : nat) (s : State)
         o sf nf specs,
    is_renderer p = true ->
    run fuel p fn outdir n s = Some (o, sf, nf, specs) ->
    retries_of sf
    = retries_of s ++ map (retry_record Date_now) (removelast specs).
Proof.
  induction fuel as [|fuel IH]; intros p fn outdir n s o sf nf specs Hrenderer Hrun;
    [discriminate|].
  cbn [streamRendererFunctionWithRetry] in Hrun. rewrite Hrenderer in Hrun.
  cbn [negb] in Hrun.
  destruct (attempt_of p fn outdir n s) as [[[oa s'] n']|] eqn:Hattempt;
    [|discriminate].
  assert (Hsame : retries_of s' = retries_of s).
  { refine (attempt_keeps (fun st => retries_of st = retries_of s) _ _ _
              p fn outdir n s oa s' n' eq_refl Hattempt).
    - intros q od m st Hst.
      destruct (handler_adds join q od m st) as [(calls & Hcalls & Hnone) _].
      unfold retries_of in *. rewrite Hcalls, List.filter_app, Hst.
      rewrite (filter_nothing _ _ Hnone). apply app_nil_r.
    - intros r st Hst. unfold retries_of in *.
      destruct (resolve_fields r st) as (-> & _). exact Hst.
    - intros st Hst. exact Hst. }
  destruct oa as [result|e|e];
    [|injection Hrun as _ <- _ <-; cbn; now rewrite app_nil_r, Hsame..].
  destruct (decide_result p result) as [|err|next] eqn:Hdecide;
    [injection Hrun as _ <- _ <-; cbn; now rewrite app_nil_r, Hsame..|].
  apply decide_result_retry in Hdecide. subst next.
  match type of Hrun with
  | match ?rec with _ => _ end = _ =>
      destruct rec as [[[[o1 s1] n1] specs1]|] eqn:Hrec; [|discriminate]
  end.
  injection Hrun as _ <- _ <-.
  destruct (run_specs_head fuel (with_attempt p (attempt p + 1) (retriesLeft p - 1)) _ _ _ _ _ _ _ _ Hrenderer Hrec)
    as [rest ->].
  rewrite (IH (with_attempt p (attempt p + 1) (retriesLeft p - 1)) _ _ _ _ _ _ _ _ Hrenderer Hrec).
  change (removelast (p :: with_attempt p (attempt p + 1) (retriesLeft p - 1) :: rest))
    with (p :: removelast (with_attempt p (attempt p + 1) (retriesLeft p - 1) :: rest)).
  cbn [map]. unfold retries_of at 1. cbn [call_progress progressCalls].
  rewrite List.filter_app. cbn [List.filter is_addRetry].
  fold (retries_of s'). rewrite Hsame, <- app_assoc. reflexivity.
Qed.

(** [X11]. Every attempt of a chunk issues at least one and at most three
    invocations. *)
Theorem invocations_per_attempt (fuel : nat) :
  forall (p : LambdaPayload) (fn outdir : string) (n : nat) (s : State)
         o sf nf specs,
    is_renderer p = true ->
    run fuel p fn outdir n s = Some (o, sf, nf, specs) ->
    (n + length specs <= nf <= n + 3 * length specs)%nat.
Proof.
  induction fuel as [|fuel IH]; intros p fn outdir n s o sf nf specs Hrenderer Hrun;
    [discriminate|].
  cbn [streamRendererFunctionWithRetry] in Hrun. rewrite Hrenderer in Hrun.
  cbn [negb] in Hrun.
  destruct (attempt_of p fn outdir n s) as [[[oa s'] n']|] eqn:Hattempt;
    [|discriminate].
  destruct (attempt_of_renderer _ _ _ _ _ _ _ _ Hrenderer Hattempt) as [_ Hn].
  destruct oa as [result|e|e]; [|injection Hrun as _ _ <- <-; cbn; lia..].
  destruct (decide_result p result) as [|err|next] eqn:Hdecide;
    [injection Hrun as _ _ <- <-; cbn; lia..|].
  apply decide_result_retry in Hdecide. subst next.
  match type of Hrun with
  | match ?rec with _ => _ end = _ =>
      destruct rec as [[[[o1 s1] n1] specs1]|] eqn:Hrec; [|discriminate]
  end.
  injection Hrun as _ _ <- <-.
  pose proof (IH (with_attempt p (attempt p + 1) (retriesLeft p - 1)) _ _ _ _ _ _ _ _ Hrenderer Hrec)
    as Hrest.
  cbn [length]. lia.
Qed.

(** [X12]. An orchestration throws an [Error] object only for a payload
    that is not a renderer payload, before doing anything; for a renderer
    payload it returns with the last attempt resolved as a success, or
    throws the error text of the last attempt, which was resolved as a
    failure without retry. *)
Theorem orchestration_outcomes (fuel : nat) :
  forall (p : LambdaPayload) (fn outdir : string) (n : nat) (s : State)
         o sf nf specs,
    run fuel p fn outdir n s = Some (o, sf, nf, specs) ->
    (if is_renderer p then
       match o with
       | Returned _ => resolved sf = Some response_success
       | ThrewString e => resolved sf = Some (response_error e false)
       | ThrewError _ => False
       end
     else o = ThrewError (new_Error "Expected renderer type")
          /\ sf = s /\ nf = n /\ specs = []).
Proof.
  induction fuel as [|fuel IH]; intros p fn outdir n s o sf nf specs Hrun;
    [discriminate|].
  cbn [streamRendererFunctionWithRetry] in Hrun.
  destruct (is_renderer p) eqn:Hrenderer; cbn [negb] in Hrun;
    [|now injection Hrun as <- <- <- <-].
  destruct (attempt_of p fn outdir n s) as [[[oa s'] n']|] eqn:Hattempt;
    [|discriminate].
  destruct (attempt_of_renderer _ _ _ _ _ _ _ _ Hrenderer Hattempt)
    as [(r & -> & Hres) _].
  destruct r as [|err sr]; cbn [decide_result] in Hrun.
  - now injection Hrun as <- <- _ _.
  - destruct sr; cbn [negb] in Hrun; [|now injection Hrun as <- <- _ _].
    match type of Hrun with
    | match ?rec with _ => _ end = _ =>
        destruct rec as [[[[o1 s1] n1] specs1]|] eqn:Hrec; [|discriminate]
    end.
    injection Hrun as <- <- _ _.
    specialize (IH _ _ _ _ _ _ _ _ _ Hrec).
    change (is_renderer (with_attempt p (attempt p + 1) (retriesLeft p - 1)))
      with (is_renderer p) in IH.
    rewrite Hrenderer in IH. exact IH.
Qed.

(** [X13]. When no invocation is acknowledged before the deadline, the
    client gives up after three invocations with the stall error; the
    orchestration then makes this one attempt, records no retry, resolves
    the attempt as a failure without retry whose error text is the
    [stack] of that error, and throws that text. *)
Theorem stalled_chunk_fails_after_three (fuel : nat) (p : LambdaPayload)
  (fn outdir : string) (n : nat) (s : State) :
  is_renderer p = true ->
  (forall k q, pending_at_deadline (w k q)) ->
  exists err,
    callLambdaWithStreaming clientFuel tie w
      {| functionName := fn; payload_ := p; region := currentRegion |}
      (receivedStreamingPayload join p outdir) 2 n (new_promise s)
    = Some (Throw err, new_promise s, (n + 3)%nat)
    /\ message err = "AWS did not invoke Lambda in 60000ms"
    /\ run (Datatypes.S fuel) p fn outdir n s
       = Some (ThrewString (stack err),
               resolve (response_error (stack err) false) (new_promise s),
               (n + 3)%nat, [p]).
Proof.
  intros Hrenderer Hstall.
  pose proof (ClientRetryProperties.stalled_client tie w
                {| functionName := fn; payload_ := p; region := currentRegion |}
                (receivedStreamingPayload join p outdir) clientFuel 2 n
                (new_promise s)) as Hclient.
  change (Datatypes.S (Z.to_nat 2) + n)%nat with (3 + n)%nat in Hclient.
  replace (3 + n)%nat with (n + 3)%nat in Hclient by lia.
  specialize (Hclient (fun k => Hstall k p)).
  assert (Hthrown := Hclient ltac:(lia) ltac:(unfold clientFuel; lia)).
  exists (new_Error LAMBDA_STREAM_STALL).
  split; [exact Hthrown|]. split; [reflexivity|].
  cbn [streamRendererFunctionWithRetry]. rewrite Hrenderer. cbn [negb].
  unfold streamRenderer. rewrite Hrenderer. cbn [negb].
  rewrite Hthrown.
  rewrite (StreamRendererFacts.resolve_pending _ (new_promise s) eq_refl).
  reflexivity.
Qed.

End Runs.

Lemma unknown_type_is_thrown_witness :
  receivedStreamingPayload Fixture.join Fixture.payload0 "/tmp/out"
    {| successType := success;
       message_ := {| CallLambda.type := "render-id-determined";
                      payload := PayloadBytes [] |} |} Fixture.state0
  = (Throw (new_Error "Unknown message type render-id-determined"), Fixture.state0).
Proof.
  apply (unknown_type_is_thrown Fixture.join Fixture.payload0 "/tmp/out"
           {| successType := success;
              message_ := {| CallLambda.type := "render-id-determined";
                             payload := PayloadBytes [] |} |} Fixture.state0).
  cbn. intros [H|[H|[H|[H|[H|[H|[]]]]]]]; discriminate.
Defined.

Lemma orchestration_only_adds_witness :
  exists sf,
    streamRendererFunctionWithRetry Fixture.join true Fixture.worker_world
      "eu-central-1" Fixture.clock 2 Fixture.payload0 "fn" "/tmp/out" 0%nat
      Fixture.state0
    = Some (Returned tt, sf, 2%nat,
            [Fixture.payload0; with_attempt Fixture.payload0 2 0])
    /\ files_written sf.
Proof.
  eexists. split; [vm_compute; reflexivity|].
  refine (proj2 (proj2 (proj2 (orchestration_only_adds Fixture.join true
            Fixture.worker_world "eu-central-1" Fixture.clock 2 Fixture.payload0
            "fn" "/tmp/out" 0%nat Fixture.state0 (Returned tt) _ 2%nat
            [Fixture.payload0; with_attempt Fixture.payload0 2 0] _))) _).
  - vm_compute. reflexivity.
  - intros f [].
Defined.

Lemma retries_are_recorded_witness :
  exists sf,
    streamRendererFunctionWithRetry Fixture.join true Fixture.worker_world
      "eu-central-1" Fixture.clock 2 Fixture.payload0 "fn" "/tmp/out" 0%nat
      Fixture.state0
    = Some (Returned tt, sf, 2%nat,
            [Fixture.payload0; with_attempt Fixture.payload0 2 0])
    /\ retries_of sf = [addRetry 2 1001 (Some 7)].
Proof.
  eexists. split; [vm_compute; reflexivity|].
  refine (retries_are_recorded Fixture.join true Fixture.worker_world
            "eu-central-1" Fixture.clock 2 Fixture.payload0 "fn" "/tmp/out" 0%nat
            Fixture.state0 (Returned tt) _ 2%nat
            [Fixture.payload0; with_attempt Fixture.payload0 2 0] eq_refl _).
  vm_compute. reflexivity.
Defined.

Lemma invocations_per_attempt_witness :
  exists sf nf,
    streamRendererFunctionWithRetry Fixture.join true Fixture.retry_then_unhandled
      "eu-central-1" Fixture.clock 5 Fixture.payload0 "fn" "/tmp/out" 0%nat
      Fixture.state0
    = Some (Returned tt, sf, nf,
            [Fixture.payload0; with_attempt Fixture.payload0 2 0])
    /\ (2 <= nf <= 6)%nat.
Proof.
  eexists _, _. split; [vm_compute; reflexivity|].
  refine (invocations_per_attempt Fixture.join true Fixture.retry_then_unhandled
            "eu-central-1" Fixture.clock 5 Fixture.payload0 "fn" "/tmp/out" 0%nat
            Fixture.state0 (Returned tt) _ _
            [Fixture.payload0; with_attempt Fixture.payload0 2 0] eq_refl _).
  vm_compute. reflexivity.
Defined.

Lemma orchestration_outcomes_witness :
  exists sf nf specs,
    streamRendererFunctionWithRetry Fixture.join true Fixture.error_then_video
      "eu-central-1" Fixture.clock 1 Fixture.payload0 "fn" "/tmp/out" 0%nat
      Fixture.state0
    = Some (ThrewString "boom", sf, nf, specs)
    /\ resolved sf = Some (response_error "boom" false).
Proof.
  eexists _, _, _. split; [vm_compute; reflexivity|].
  refine (orchestration_outcomes Fixture.join true Fixture.error_then_video
            "eu-central-1" Fixture.clock 1 Fixture.payload0 "fn" "/tmp/out" 0%nat
            Fixture.state0 (ThrewString "boom") _ _ _ _).
  vm_compute. reflexivity.
Defined.

Lemma stalled_chunk_fails_after_three_witness :
  exists err sf,
    message err = "AWS did not invoke Lambda in 60000ms"
    /\ streamRendererFunctionWithRetry Fixture.join true Fixture.never_acknowledged
         "eu-central-1" Fixture.clock 1 Fixture.payload0 "fn" "/tmp/out" 0%nat
         Fixture.state0
       = Some (ThrewString (stack err), sf, 3%nat, [Fixture.payload0]).
Proof.
  destruct (stalled_chunk_fails_after_three Fixture.join true
              Fixture.never_acknowledged "eu-central-1" Fixture.clock 0
              Fixture.payload0 "fn" "/tmp/out" 0%nat Fixture.state0 eq_refl
              (fun _ _ => I))
    as (err & _ & Hmessage & Hrun).
  exists err. eexists. split; [exact Hmessage|exact Hrun].
Defined.

End OrchestratorProperties.

(** ** More on the worker handler *)

Module WorkerProperties.

Import Constants.
Import Renderer.
Import RendererSpec.

#[local] Open Scope list_scope.

Section Worker.

Context `{WX : WorkerExternals}.

(** [X14]. Which progress callbacks are forwarded: once all frames are
    rendered, every one; before that, one whose rendered count is a
    multiple of a non-zero [progressEveryNthFrame] while not all frames
    are encoded.  Nothing else changes. *)
Theorem progress_is_forwarded_iff (params : LambdaPayload) (env : RenderEnv)
  (renderedFrames encodedFrames : Z) (s : WState) :
  onProgress params env renderedFrames encodedFrames s
  = (Normal tt,
     {| emitted := emitted s
                   ++ (if reported params env renderedFrames encodedFrames
                       then [frames_rendered renderedFrames encodedFrames]
                       else []);
        rmIssued := rmIssued s; finalized := finalized s |}).
Proof.
  unfold onProgress, reported, rem_is_zero.
  destruct (allFramesLength env =? renderedFrames),
           (allFramesLength env =? encodedFrames),
           (progressEveryNthFrame params =? 0),
           (Z.rem renderedFrames (progressEveryNthFrame params) =? 0),
           (Z.rem encodedFrames (progressEveryNthFrame params) =? 0);
    cbn; try reflexivity; destruct s; cbn; now rewrite app_nil_r.
Qed.

(** [X15]. A request with another version, without chunk index or
    without frame range is rejected before any message is sent and before
    anything is removed; outside the test environment the coordinator is
    then sent the [error-occurred] message and nothing else. *)
Theorem rejected_request_sends_nothing (params : LambdaPayload) (env : RenderEnv) :
  is_renderer params = true ->
  version params <> VERSION env \/ chunk params = None \/ frameRange params = None ->
  exists e,
    (forall s, renderHandler params env s = (Throw e, s))
    /\ (forall NODE_ENV, NODE_ENV <> Some "test" ->
        rendererHandler NODE_ENV params env initial
        = (Throw e,
           {| emitted := [errorOccurred params e]; rmIssued := [];
              finalized := true |})).
Proof.
  intros Hrenderer Hbad.
  assert (Hthrow : exists e, forall s, renderHandler params env s = (Throw e, s)).
  { unfold renderHandler. rewrite Hrenderer. cbn [negb].
    destruct (String.eqb_spec (version params) (VERSION env)) as [Hv|Hv];
      cbn [negb]; [|eexists; intros s; reflexivity].
    destruct Hbad as [Hbad|Hbad]; [contradiction|].
    unfold mbind, M_bind, bind, await.
    destruct (getBrowserInstance env) as [u|e]; [|eexists; intros s; reflexivity].
    destruct (chunk params) as [c|]; [|eexists; intros s; reflexivity].
    destruct (frameRange params) as [range|]; [|eexists; intros s; reflexivity].
    destruct Hbad; discriminate. }
  destruct Hthrow as [e He]. exists e. split; [exact He|].
  intros NODE_ENV Henv. unfold rendererHandler. rewrite Hrenderer. cbn [negb].
  rewrite He, bool_decide_eq_false_2 by exact Henv. reflexivity.
Qed.

(** The stage after rendering, on readable artifacts: its messages and
    its removals. *)
Lemma streamAndCleanUp_messages (env : RenderEnv) (c : Z) (s : WState) (v : bytes) :
  readFileSync env (videoOutputLocation env c) = Normal v ->
  artifacts_readable env c ->
  emitted (snd (streamAndCleanUp env c s))
  = emitted s ++ audio_messages env c
    ++ [main_message env v; chunk_complete (end_time env) (start_time env)].
Proof.
  intros Hvideo [_ Haudio].
  unfold streamAndCleanUp, audio_messages, main_message, mbind, M_bind, bind.
  destruct (audioOutputLocation env c) as [l|] eqn:Hloc; cbn [when_some].
  - destruct (Haudio l eq_refl) as [a Ha].
    unfold mbind, M_bind, bind, await. rewrite Ha, Hvideo.
    cbn. now rewrite <- !app_assoc.
  - unfold await, ret. rewrite Hvideo. cbn. now rewrite <- !app_assoc.
Qed.

(** Without readable artifacts the stage throws before any removal. *)
Lemma streamAndCleanUp_unreadable (env : RenderEnv) (c : Z) (s : WState) :
  ~ artifacts_readable env c ->
  is_throw (fst (streamAndCleanUp env c s)) = true
  /\ rmIssued (snd (streamAndCleanUp env c s)) = rmIssued s.
Proof.
  intros Hno.
  unfold streamAndCleanUp, mbind, M_bind, bind.
  destruct (audioOutputLocation env c) as [l|] eqn:Hloc; cbn [when_some].
  - unfold mbind, M_bind, bind, await.
    destruct (readFileSync env l) as [a|e] eqn:Ha; [|now split].
    destruct (readFileSync env (videoOutputLocation env c)) as [v|e] eqn:Hv;
      [|now split].
    exfalso. apply Hno. split; [now exists v|].
    intros l0 Hl0. rewrite Hloc in Hl0. injection Hl0 as <-. now exists a.
  - unfold await, ret.
    destruct (readFileSync env (videoOutputLocation env c)) as [v|e] eqn:Hv;
      [|now split].
    exfalso. apply Hno. split; [now exists v|].
    intros l0 Hl0. rewrite Hloc in Hl0. discriminate.
Qed.

(** After validation [renderHandler] is what follows line 162. *)
Lemma renderHandler_validated (params : LambdaPayload) (env : RenderEnv)
  (c : Z) (range : Z * Z) (s : WState) :
  is_renderer params = true ->
  version params = VERSION env ->
  getBrowserInstance env = Normal tt ->
  chunk params = Some c ->
  frameRange params = Some range ->
  willRenderAudioEval env <> audio_maybe ->
  renderHandler params env s
  = (await (resolvedProps env) ;;
     await (inputProps env) ;;
     internalRenderMedia params env ;;
     streamAndCleanUp env c) s.
Proof.
  intros Hrenderer Hv Hbrowser Hchunk Hrange Haudio.
  unfold renderHandler.
  rewrite Hrenderer, Hv, String.eqb_refl, Hbrowser, Hchunk, Hrange. cbn [negb].
  destruct (willRenderAudioEval env); [reflexivity|reflexivity|contradiction].
Qed.

(** The two ways [renderHandler] goes for a renderer payload: it reaches
    the stage after rendering, or it throws before, nothing removed. *)
Lemma renderHandler_cases (params : LambdaPayload) (env : RenderEnv) :
  is_renderer params = true ->
  (exists c s0,
      rendering_completes params env c
      /\ run_callbacks params env (renderCallbacks env) initial = (Normal tt, s0)
      /\ rmIssued s0 = []
      /\ renderHandler params env initial = streamAndCleanUp env c s0)
  \/ ((forall c, ~ rendering_completes params env c)
      /\ is_throw (fst (renderHandler params env initial)) = true
      /\ rmIssued (snd (renderHandler params env initial)) = []).
Proof.
  intros Hrenderer.
  destruct (RendererFacts.run_callbacks_normal params env (renderCallbacks env) initial)
    as (s0 & Hcbs & Hrm & _).
  cbn [initial rmIssued] in Hrm.
  destruct (String.eqb_spec (version params) (VERSION env)) as [Hv|Hv].
  2:{ right. split; [intros c (_ & Hv' & _); contradiction|].
      unfold renderHandler. rewrite Hrenderer. cbn [negb].
      destruct (String.eqb_spec (version params) (VERSION env)); [contradiction|].
      now split. }
  destruct (getBrowserInstance env) as [[]|e] eqn:Hbrowser.
  2:{ right. split; [intros c (_ & _ & Hb & _); congruence|].
      unfold renderHandler.
      rewrite Hrenderer, Hv, String.eqb_refl, Hbrowser. now split. }
  destruct (chunk params) as [c|] eqn:Hchunk.
  2:{ right. split; [intros c (_ & _ & _ & Hc & _); congruence|].
      unfold renderHandler.
      rewrite Hrenderer, Hv, String.eqb_refl, Hbrowser, Hchunk. now split. }
  destruct (frameRange params) as [range|] eqn:Hrange.
  2:{ right. split; [intros c0 (_ & _ & _ & _ & [r Hr] & _); congruence|].
      unfold renderHandler.
      rewrite Hrenderer, Hv, String.eqb_refl, Hbrowser, Hchunk, Hrange. now split. }
  destruct (willRenderAudioEval env) eqn:Haudio.
  3:{ right. split; [intros c0 (_ & _ & _ & _ & _ & Hne & _); congruence|].
      unfold renderHandler.
      rewrite Hrenderer, Hv, String.eqb_refl, Hbrowser, Hchunk, Hrange, Haudio.
      now split. }
  all: rewrite (renderHandler_validated params env c range initial)
         by (try assumption; rewrite Haudio; discriminate).
  all: unfold internalRenderMedia, mbind, M_bind, bind, await.
  all: destruct (resolvedProps env) as [[]|e] eqn:Hresolved;
       [|right; split; [intros c0 (_ & _ & _ & _ & _ & _ & Hr & _); congruence|now split]].
  all: destruct (inputProps env) as [[]|e] eqn:Hinput;
       [|right; split; [intros c0 (_ & _ & _ & _ & _ & _ & _ & Hi & _); congruence|now split]].
  all: rewrite Hcbs.
  all: destruct (renderResult env) as [[]|e] eqn:Hrender;
       [|right; split; [intros c0 (_ & _ & _ & _ & _ & _ & _ & _ & Hres); congruence
                       |now split]].
  all: left; exists c, s0; split; [|now repeat split].
  all: unfold rendering_completes; rewrite Haudio;
       repeat split; try assumption; try reflexivity;
       [now exists range|discriminate].
Qed.

(** [X16]. When rendering completes and the artifacts can be read, the
    messages handed over are, in this order: those of the engine's
    callbacks, the separate audio if there is one, the main artifact (as
    audio for an audio codec, as video otherwise) and [chunk-complete]
    with the two times; whether the sends succeed plays no role. *)
Theorem messages_of_a_rendered_chunk (params : LambdaPayload) (env : RenderEnv)
  (c : Z) (v : bytes) :
  rendering_completes params env c ->
  artifacts_readable env c ->
  readFileSync env (videoOutputLocation env c) = Normal v ->
  emitted (snd (renderHandler params env initial))
  = progress_messages params env ++ audio_messages env c
    ++ [main_message env v; chunk_complete (end_time env) (start_time env)].
Proof.
  intros Hcomplete Hread Hvideo.
  destruct (renderHandler_cases params env (proj1 Hcomplete))
    as [(c0 & s0 & Hc0 & Hcbs & _ & Hflow)|(Hnever & _)];
    [|now destruct (Hnever c)].
  assert (c0 = c) as ->.
  { destruct Hcomplete as (_ & _ & _ & Hc & _), Hc0 as (_ & _ & _ & Hc' & _).
    congruence. }
  rewrite Hflow, (streamAndCleanUp_messages env c s0 v Hvideo Hread).
  unfold progress_messages. now rewrite Hcbs.
Qed.

(** [X17]. A removal is issued only when rendering has completed and the
    artifacts have been read: in every other case the handler throws with
    nothing removed. *)
Theorem removals_only_after_rendering (params : LambdaPayload) (env : RenderEnv) :
  is_renderer params = true ->
  (forall c, ~ (rendering_completes params env c /\ artifacts_readable env c)) ->
  is_throw (fst (renderHandler params env initial)) = true
  /\ rmIssued (snd (renderHandler params env initial)) = [].
Proof.
  intros Hrenderer Hnever.
  destruct (renderHandler_cases params env Hrenderer)
    as [(c & s0 & Hc & _ & Hrm & ->)|(_ & Hthrow & Hnone)]; [|now split].
  destruct (streamAndCleanUp_unreadable env c s0) as [Hthrow Hsame].
  - intros Hread. now apply (Hnever c).
  - split; [exact Hthrow|congruence].
Qed.

(** [X18]. The handler rethrows the error of [renderHandler] unchanged
    and returns when it returns; for a renderer payload the [finally]
    block has run in either case. *)
Theorem handler_keeps_the_outcome (NODE_ENV : option string)
  (params : LambdaPayload) (env : RenderEnv) (s : WState) :
  is_renderer params = true ->
  fst (rendererHandler NODE_ENV params env s) = fst (renderHandler params env s)
  /\ finalized (snd (rendererHandler NODE_ENV params env s)) = true
  /\ rmIssued (snd (rendererHandler NODE_ENV params env s))
     = rmIssued (snd (renderHandler params env s)).
Proof.
  intros Hrenderer. unfold rendererHandler. rewrite Hrenderer. cbn [negb].
  destruct (renderHandler params env s) as [[[]|err] s1]; cbn [fst snd].
  - now repeat split.
  - destruct (bool_decide (NODE_ENV = Some "test")); now repeat split.
Qed.

(** [X19]. A handler that returns has rendered the chunk and read the
    artifacts; it has sent no [error-occurred] message, its last message
    is [chunk-complete], and the removals have been issued. *)
Theorem returning_handler_completed_the_chunk (NODE_ENV : option string)
  (params : LambdaPayload) (env : RenderEnv) :
  fst (rendererHandler NODE_ENV params env initial) = Normal tt ->
  exists c v,
    rendering_completes params env c
    /\ artifacts_readable env c
    /\ emitted (snd (rendererHandler NODE_ENV params env initial))
       = progress_messages params env ++ audio_messages env c
         ++ [main_message env v; chunk_complete (end_time env) (start_time env)]
    /\ Forall not_error (emitted (snd (rendererHandler NODE_ENV params env initial)))
    /\ rmIssued (snd (rendererHandler NODE_ENV params env initial))
       = [videoOutputLocation env c] ++ option_list (audioOutputLocation env c)
         ++ [outputPath env].
Proof.
  intros Hreturn.
  destruct (is_renderer params) eqn:Hrenderer.
  2:{ unfold rendererHandler in Hreturn. rewrite Hrenderer in Hreturn. discriminate. }
  assert (Hinner : exists s1, renderHandler params env initial = (Normal tt, s1)
                   /\ rendererHandler NODE_ENV params env initial
                      = (Normal tt, {| emitted := emitted s1; rmIssued := rmIssued s1;
                                       finalized := true |})).
  { unfold rendererHandler in *. rewrite Hrenderer in *. cbn [negb] in *.
    destruct (renderHandler params env initial) as [[[]|err] s1].
    - now exists s1.
    - destruct (bool_decide (NODE_ENV = Some "test")); discriminate. }
  destruct Hinner as (s1 & Hinner & ->). cbn [snd emitted rmIssued].
  destruct (renderHandler_cases params env Hrenderer)
    as [(c & s0 & Hc & Hcbs & Hrm & Hflow)|(_ & Hthrow & _)];
    [|rewrite Hinner in Hthrow; discriminate].
  assert (Hread : artifacts_readable env c).
  { destruct (readFileSync env (videoOutputLocation env c)) as [v|e] eqn:Hv.
    - split; [now exists v|]. intros l Hl.
      destruct (readFileSync env l) as [a|e] eqn:Ha; [now exists a|].
      exfalso.
      assert (Hno : ~ artifacts_readable env c).
      { intros [_ Hall]. destruct (Hall l Hl) as [a Ha']. congruence. }
      destruct (streamAndCleanUp_unreadable env c s0 Hno) as [Hthrow _].
      rewrite <- Hflow, Hinner in Hthrow. discriminate.
    - exfalso.
      assert (Hno : ~ artifacts_readable env c).
      { intros [[v Hv'] _]. congruence. }
      destruct (streamAndCleanUp_unreadable env c s0 Hno) as [Hthrow _].
      rewrite <- Hflow, Hinner in Hthrow. discriminate. }
  destruct Hread as [[v Hv] Haudio].
  exists c, v. split; [exact Hc|]. split; [now split; [exists v|]|].
  assert (Hmsgs : emitted s1
                  = progress_messages params env ++ audio_messages env c
                    ++ [main_message env v;
                        chunk_complete (end_time env) (start_time env)]).
  { pose proof (streamAndCleanUp_messages env c s0 v Hv
                  (conj (ex_intro _ v Hv) Haudio)) as Hm.
    rewrite <- Hflow, Hinner in Hm. cbn [snd] in Hm.
    unfold progress_messages. now rewrite Hcbs. }
  split; [exact Hmsgs|]. split.
  - destruct (RendererFacts.quiet_renderHandler params env initial)
      as (extra & Heq & Hok).
    rewrite Hinner in Heq. cbn [snd initial emitted app] in Heq. now rewrite Heq.
  - pose proof (RendererFacts.streamAndCleanUp_removals env c s0
                  (conj (ex_intro _ v Hv) Haudio)) as Hr.
    rewrite <- Hflow, Hinner, Hrm in Hr. exact Hr.
Qed.

End Worker.

Lemma rejected_request_sends_nothing_witness :
  exists e,
    rendererHandler None Samples.payload_without_chunk Fixture.env_ok initial
    = (Throw e,
       {| emitted := [errorOccurred Samples.payload_without_chunk e];
          rmIssued := []; finalized := true |}).
Proof.
  destruct (rejected_request_sends_nothing Samples.payload_without_chunk
              Fixture.env_ok eq_refl (or_intror (or_introl eq_refl)))
    as (e & _ & Hhandler).
  exists e. apply Hhandler. discriminate.
Defined.

Lemma fixture_rendering_completes (send : completion unit) :
  rendering_completes Fixture.payload0
    (Fixture.render_env
       [cb_onStart; cb_onProgress 5 0; cb_onProgress 10 10] (Normal tt) send) 7.
Proof.
  unfold rendering_completes. repeat split; try reflexivity.
  - now exists (0, 9).
  - discriminate.
Qed.

Lemma fixture_artifacts_readable (send : completion unit) :
  artifacts_readable
    (Fixture.render_env
       [cb_onStart; cb_onProgress 5 0; cb_onProgress 10 10] (Normal tt) send) 7.
Proof.
  split; [now exists []|]. intros l _. now exists [].
Qed.

Lemma messages_of_a_rendered_chunk_witness :
  emitted (snd (renderHandler Fixture.payload0 Fixture.env_send_fails initial))
  = [lambda_invoked 1; frames_rendered 5 0; frames_rendered 10 10;
     audio_chunk_rendered []; video_chunk_rendered []; chunk_complete 200 100].
Proof.
  rewrite (messages_of_a_rendered_chunk Fixture.payload0 Fixture.env_send_fails 7 []
             (fixture_rendering_completes _) (fixture_artifacts_readable _) eq_refl).
  reflexivity.
Defined.

Lemma removals_only_after_rendering_witness :
  is_throw (fst (renderHandler Fixture.payload0 Fixture.env_render_fails initial))
  = true
  /\ rmIssued (snd (renderHandler Fixture.payload0 Fixture.env_render_fails initial))
     = [].
Proof.
  apply (removals_only_after_rendering Fixture.payload0 Fixture.env_render_fails
           eq_refl).
  intros c [(_ & _ & _ & _ & _ & _ & _ & _ & Hres) _]. discriminate.
Defined.

Lemma handler_keeps_the_outcome_witness :
  fst (rendererHandler None Fixture.payload0 Fixture.env_send_fails initial)
  = fst (renderHandler Fixture.payload0 Fixture.env_send_fails initial)
  /\ finalized (snd (rendererHandler None Fixture.payload0 Fixture.env_send_fails
                       initial)) = true.
Proof.
  pose proof (handler_keeps_the_outcome None Fixture.payload0 Fixture.env_send_fails
                initial eq_refl) as (Hsame & Hfinal & _).
  now split.
Defined.

Lemma returning_handler_completed_the_chunk_witness :
  exists c v,
    rendering_completes Fixture.payload0 Fixture.env_ok c
    /\ artifacts_readable Fixture.env_ok c
    /\ emitted (snd (rendererHandler None Fixture.payload0 Fixture.env_ok initial))
       = progress_messages Fixture.payload0 Fixture.env_ok
         ++ audio_messages Fixture.env_ok c
         ++ [main_message Fixture.env_ok v;
             chunk_complete (end_time Fixture.env_ok) (start_time Fixture.env_ok)]
    /\ Forall not_error
         (emitted (snd (rendererHandler None Fixture.payload0 Fixture.env_ok initial)))
    /\ rmIssued (snd (rendererHandler None Fixture.payload0 Fixture.env_ok initial))
       = [videoOutputLocation Fixture.env_ok c]
         ++ option_list (audioOutputLocation Fixture.env_ok c)
         ++ [outputPath Fixture.env_ok].
Proof.
  apply (returning_handler_completed_the_chunk None Fixture.payload0 Fixture.env_ok).
  reflexivity.
Defined.

End WorkerProperties.

(** ** More on the media buffering effect *)

Module BufferingProperties.

Import UseMediaBuffering.
Import UseMediaBufferingSpec.

#[local] Open Scope list_scope.
#[local] Open Scope nat_scope.

Lemma same_canplay (h k : nat) :
  same_listener "canplay" (onCanPlay h) (canplay_reg k) = bool_decide (k = h).
Proof.
  unfold same_listener, canplay_reg. cbn [event listener].
  change (String.eqb "canplay" "canplay") with true. cbn [andb].
  destruct (decide (k = h)) as [->|Hne].
  - now rewrite !bool_decide_eq_true_2.
  - rewrite !bool_decide_eq_false_2; [reflexivity|exact Hne|congruence].
Qed.

Lemma fresh_handle (h : nat) (l : list nat) :
  ~ In h l ->
  existsb (same_listener "canplay" (onCanPlay h)) (waiting_reg :: map canplay_reg l)
  = false.
Proof.
  intros Hfresh. cbn [existsb]. change (same_listener _ _ waiting_reg) with false.
  cbn [orb]. induction l as [|k l IH]; [reflexivity|].
  cbn [map existsb]. rewrite same_canplay.
  rewrite bool_decide_eq_false_2 by (intros ->; apply Hfresh; now left).
  cbn [orb]. apply IH. intros Hin. apply Hfresh. now right.
Qed.

Lemma filter_keeps_others (h : nat) (l : list nat) :
  ~ In h l ->
  filter (fun r => negb (same_listener "canplay" (onCanPlay h) r)) (map canplay_reg l)
  = map canplay_reg l.
Proof.
  intros Hfresh. induction l as [|k l IH]; [reflexivity|].
  cbn [map]. rewrite filter_cons_True.
  - f_equal. apply IH. intros Hin. apply Hfresh. now right.
  - rewrite same_canplay.
    rewrite bool_decide_eq_false_2 by (intros ->; apply Hfresh; now left).
    exact I.
Qed.

(** Registrations for other events are passed over. *)
Lemma dispatch_passes_over (ev : string) (regs : list Registration) :
  forall acc,
    Forall (fun r => event r <> ev) regs ->
    fold_left
      (fun acc r =>
         if String.eqb (event r) ev then
           let acc' := if once r then removeEventListener ev (listener r) acc
                       else acc in
           run_listener (listener r) acc'
         else acc) regs acc
    = acc.
Proof.
  induction regs as [|r regs IH]; intros acc Hall; [reflexivity|].
  inversion Hall as [|? ? Hr Hrest]; subst. cbn [fold_left].
  destruct (String.eqb_spec (event r) ev) as [Heq|_]; [contradiction|].
  now apply IH.
Qed.

Lemma canplay_regs_events (ev : string) (l : list nat) :
  ev <> "canplay" -> Forall (fun r => event r <> ev) (map canplay_reg l).
Proof.
  intros Hev. induction l as [|k l IH]; constructor; [|exact IH].
  cbn. congruence.
Qed.

(** A [canplay] event runs the pending listeners in order, each removed
    before it runs. *)
Lemma dispatch_canplay_pending (l : list nat) :
  forall acc,
    List.NoDup l ->
    listeners acc = waiting_reg :: map canplay_reg l ->
    fold_left
      (fun acc r =>
         if String.eqb (event r) "canplay" then
           let acc' := if once r then removeEventListener "canplay" (listener r) acc
                       else acc in
           run_listener (listener r) acc'
         else acc) (map canplay_reg l) acc
    = {| listeners := [waiting_reg]; cleanup := cleanup acc;
         delayed := delayed acc; unblocked := unblocked acc ++ l |}.
Proof.
  induction l as [|h l IH]; intros acc Hnodup Hlisteners.
  - cbn. destruct acc; cbn in *. subst. now rewrite app_nil_r.
  - inversion Hnodup as [|? ? Hfresh Hrest]; subst.
    cbn [map fold_left]. cbn [event once listener canplay_reg].
    change (String.eqb "canplay" "canplay") with true. cbv iota zeta.
    rewrite IH; [|exact Hrest|].
    + cbn [run_listener removeEventListener cleanup delayed unblocked].
      now rewrite <- app_assoc.
    + cbn [run_listener removeEventListener listeners]. rewrite Hlisteners.
      change (map canplay_reg (h :: l)) with (canplay_reg h :: map canplay_reg l).
      rewrite filter_cons_True by exact I.
      rewrite filter_cons_False.
      * f_equal. now apply filter_keeps_others.
      * rewrite same_canplay, bool_decide_eq_true_2 by reflexivity. cbn. tauto.
Qed.

Lemma live_pending (s : EffectState) (pending : list nat) :
  live s pending -> List.NoDup pending /\ forall h, In h pending -> h < delayed s.
Proof.
  intros (_ & Hall & _). split.
  - pose proof (List.seq_NoDup (delayed s) 0) as Hnodup.
    rewrite <- Hall in Hnodup. now apply List.NoDup_app_remove_l in Hnodup.
  - intros h Hin.
    assert (Hseq : In h (seq 0 (delayed s))).
    { rewrite <- Hall. apply in_or_app. now right. }
    apply List.in_seq in Hseq. lia.
Qed.

Lemma dispatch_waiting (s : EffectState) (pending : list nat) :
  live s pending ->
  dispatch "waiting" s
  = {| listeners := waiting_reg :: map canplay_reg (pending ++ [delayed s]);
       cleanup := Some (onCanPlay (delayed s));
       delayed := Datatypes.S (delayed s); unblocked := unblocked s |}.
Proof.
  intros Hlive. destruct (live_pending s pending Hlive) as [_ Hbound].
  destruct Hlive as (Hlisteners & _ & _).
  unfold dispatch. rewrite Hlisteners. cbn [fold_left].
  cbn [event once listener waiting_reg].
  change (String.eqb "waiting" "waiting") with true. cbv iota zeta.
  rewrite dispatch_passes_over by (apply canplay_regs_events; discriminate).
  cbn [run_listener]. unfold addEventListener. cbn [listeners].
  rewrite Hlisteners, fresh_handle.
  - cbn [listeners cleanup delayed unblocked].
    now rewrite map_app.
  - intros Hin. apply Hbound in Hin. lia.
Qed.

Lemma dispatch_canplay (s : EffectState) (pending : list nat) :
  live s pending ->
  dispatch "canplay" s
  = {| listeners := [waiting_reg]; cleanup := cleanup s;
       delayed := delayed s; unblocked := unblocked s ++ pending |}.
Proof.
  intros Hlive. destruct (live_pending s pending Hlive) as [Hnodup _].
  destruct Hlive as (Hlisteners & _ & _).
  unfold dispatch. rewrite Hlisteners. cbn [fold_left].
  cbn [event waiting_reg].
  change (String.eqb "waiting" "canplay") with false. cbv iota.
  now apply dispatch_canplay_pending.
Qed.

Lemma dispatch_other (ev : string) (s : EffectState) (pending : list nat) :
  live s pending -> ev <> "waiting" -> ev <> "canplay" -> dispatch ev s = s.
Proof.
  intros (Hlisteners & _ & _) Hw Hc. unfold dispatch. rewrite Hlisteners.
  apply dispatch_passes_over. constructor.
  - cbn. congruence.
  - now apply canplay_regs_events.
Qed.

(** One event keeps the shape of the state. *)
Lemma dispatch_live (ev : string) (s : EffectState) (pending : list nat) :
  live s pending ->
  exists pending',
    live (dispatch ev s) pending'
    /\ delayed (dispatch ev s)
       = delayed s + (if String.eqb ev "waiting" then 1 else 0)
    /\ (ev = "canplay" -> pending' = [])
    /\ (exists done, unblocked (dispatch ev s) = unblocked s ++ done).
Proof.
  intros Hlive.
  destruct (String.eqb_spec ev "waiting") as [->|Hw].
  - rewrite (dispatch_waiting s pending Hlive).
    destruct Hlive as (_ & Hall & _).
    exists (pending ++ [delayed s]). split; [|split; [cbn; lia|split]].
    + split; [reflexivity|]. split; [|reflexivity].
      cbn [unblocked delayed]. rewrite app_assoc, Hall.
      now rewrite List.seq_S.
    + discriminate.
    + exists []. cbn. now rewrite app_nil_r.
  - destruct (String.eqb_spec ev "canplay") as [->|Hc].
    + rewrite (dispatch_canplay s pending Hlive).
      destruct Hlive as (_ & Hall & Hcleanup).
      exists []. split; [|split; [cbn; lia|split]].
      * split; [reflexivity|]. split; [|exact Hcleanup].
        cbn [unblocked delayed]. now rewrite app_nil_r.
      * reflexivity.
      * now exists pending.
    + rewrite (dispatch_other ev s pending Hlive Hw Hc).
      exists pending. split; [exact Hlive|]. split; [lia|]. split; [contradiction|].
      exists []. now rewrite app_nil_r.
Qed.

Lemma events_live (events : list string) :
  forall (s : EffectState) (pending : list nat),
    live s pending ->
    exists pending',
      live (fold_left (fun s ev => dispatch ev s) events s) pending'
      /\ delayed (fold_left (fun s ev => dispatch ev s) events s)
         = delayed s + count_occ string_dec events "waiting".
Proof.
  induction events as [|ev events IH]; intros s pending Hlive.
  - exists pending. split; [exact Hlive|]. cbn. lia.
  - destruct (dispatch_live ev s pending Hlive) as (p1 & Hlive1 & Hd1 & _).
    destruct (IH _ _ Hlive1) as (p2 & Hlive2 & Hd2).
    exists p2. cbn [fold_left]. split; [exact Hlive2|].
    rewrite Hd2, Hd1. cbn [count_occ].
    destruct (string_dec ev "waiting") as [->|Hne].
    + cbn. lia.
    + destruct (String.eqb_spec ev "waiting"); [contradiction|]. lia.
Qed.

Lemma mounted_live :
  effect (Some []) true
  = Some {| listeners := [waiting_reg]; cleanup := None; delayed := 0;
            unblocked := [] |}
  /\ live {| listeners := [waiting_reg]; cleanup := None; delayed := 0;
             unblocked := [] |} [].
Proof. split; [reflexivity|]. now repeat split. Qed.

(** [X20]. While the effect is live on a fresh element, the listener for
    [waiting] stays registered, every handle handed out by
    [delayPlayback] is either unblocked, once, or still has its own
    [canplay] listener, and the number of handles is the number of
    [waiting] events. *)
Theorem handles_are_unblocked_or_pending (events : list string) :
  exists s pending,
    after_events events = Some s
    /\ live s pending
    /\ delayed s = count_occ string_dec events "waiting"
    /\ List.NoDup (unblocked s ++ pending).
Proof.
  destruct mounted_live as [Hmount Hlive0].
  destruct (events_live events _ _ Hlive0) as (pending & Hlive & Hd).
  eexists _, pending. unfold after_events. rewrite Hmount.
  split; [reflexivity|]. split; [exact Hlive|]. split; [exact Hd|].
  destruct Hlive as (_ & -> & _). apply List.seq_NoDup.
Qed.

(** [X21]. After a [canplay] event nothing is pending: every handle
    handed out so far has been unblocked and only the listener for
    [waiting] is left. *)
Theorem canplay_unblocks_everything (events : list string) :
  exists s,
    after_events (events ++ ["canplay"]) = Some s
    /\ unblocked s = seq 0 (delayed s)
    /\ listeners s = [waiting_reg].
Proof.
  destruct mounted_live as [Hmount Hlive0].
  destruct (events_live events _ _ Hlive0) as (pending & Hlive & _).
  unfold after_events. rewrite Hmount, fold_left_app. cbn [fold_left].
  eexists. split; [reflexivity|].
  rewrite (dispatch_canplay _ pending Hlive). cbn [unblocked delayed listeners].
  destruct Hlive as (_ & Hall & _). now split.
Qed.

(** [X22]. On a fresh element the function returned by the effect
    throws exactly when no [waiting] event was dispatched while the
    effect was live. *)
Theorem cleanup_throws_iff_never_waiting (events : list string) :
  exists res,
    mount_and_unmount (Some []) true events = Some res
    /\ (is_throw (fst res) = true <-> ~ In "waiting" events).
Proof.
  destruct mounted_live as [Hmount Hlive0].
  destruct (events_live events _ _ Hlive0) as (pending & Hlive & Hd).
  unfold mount_and_unmount. rewrite Hmount.
  eexists. split; [reflexivity|].
  destruct Hlive as (_ & _ & Hcleanup). unfold returned_cleanup.
  rewrite Hcleanup, Hd. cbn [delayed Nat.add].
  destruct (count_occ string_dec events "waiting") as [|k] eqn:Hcount; cbn [fst is_throw].
  - split; [intros _|reflexivity].
    now apply (count_occ_not_In string_dec).
  - split; [discriminate|]. intros Hno.
    apply (count_occ_not_In string_dec) in Hno. congruence.
Qed.

(** [X23]. When the returned function does not throw, it removes the
    [canplay] listener of the latest handle and nothing else: the
    listener for [waiting] stays registered, and no handle is unblocked
    by it. *)
Theorem cleanup_removes_latest_listener_only (events : list string)
  (s' : EffectState) :
  mount_and_unmount (Some []) true events = Some (Normal tt, s') ->
  exists s pending,
    after_events events = Some s
    /\ live s pending
    /\ listeners s'
       = waiting_reg
         :: map canplay_reg (List.filter (fun h => negb (h =? pred (delayed s))) pending)
    /\ unblocked s' = unblocked s
    /\ cleanup s' = cleanup s.
Proof.
  destruct mounted_live as [Hmount Hlive0].
  destruct (events_live events _ _ Hlive0) as (pending & Hlive & _).
  unfold mount_and_unmount, after_events. rewrite Hmount.
  set (s := fold_left (fun s ev => dispatch ev s) events _) in *.
  intros Hres. exists s, pending. split; [reflexivity|]. split; [exact Hlive|].
  destruct Hlive as (Hlisteners & _ & Hcleanup).
  unfold returned_cleanup in Hres. rewrite Hcleanup in Hres.
  destruct (delayed s) as [|k]; [discriminate|].
  injection Hres as <-. cbn [removeEventListener listeners unblocked cleanup pred].
  split; [|now split]. rewrite Hlisteners.
  rewrite filter_cons_True by exact I. f_equal.
  clear. induction pending as [|h pending IH]; [reflexivity|].
  cbn [map List.filter].
  destruct (Nat.eqb_spec h k) as [->|Hne]; cbn [negb].
  - rewrite filter_cons_False; [exact IH|].
    rewrite same_canplay, bool_decide_eq_true_2 by reflexivity. cbn. tauto.
  - rewrite filter_cons_True; [cbn [map]; now f_equal|].
    rewrite same_canplay, bool_decide_eq_false_2 by exact Hne. exact I.
Qed.

Lemma cleanup_removes_latest_listener_only_witness :
  exists s',
    mount_and_unmount (Some []) true ["waiting"; "waiting"] = Some (Normal tt, s')
    /\ listeners s' = [waiting_reg; canplay_reg 0]
    /\ unblocked s' = [].
Proof.
  eexists. split; [reflexivity|].
  destruct (cleanup_removes_latest_listener_only ["waiting"; "waiting"] _ eq_refl)
    as (s & pending & Hs & _ & _ & _ & _).
  split; reflexivity.
Defined.

Lemma cleanup_throws_iff_never_waiting_witness :
  exists res,
    mount_and_unmount (Some []) true ["canplay"; "playing"] = Some res
    /\ is_throw (fst res) = true.
Proof.
  destruct (cleanup_throws_iff_never_waiting ["canplay"; "playing"])
    as (res & Hres & Hiff).
  exists res. split; [exact Hres|].
  apply (proj2 Hiff). intros [H|[H|[]]]; discriminate.
Defined.

End BufferingProperties.
